(** * Gallery-App: the upload / list / download / delete service and its client

    A shallow embedding of the Express server (routes, multer upload
    configuration, error middleware) and of the [fetchImages],
    [handleFileUpload] and [deleteImage] actions of the React client.  The
    three external services the server talks to are made explicit:

    - the Metadata Store (the Mongoose model [Image]) is a finite map from
      [_id] to documents; every query may reject, and the order of documents
      with equal sort keys is chosen per query, both as decided by the
      environment;
    - the Media Store (Cloudinary) is represented by the trace of the calls
      issued to it; every call may reject, as decided by the environment;
    - [console.error] is a list of log lines.

    JavaScript strings are modelled as byte strings, [undefined] / [null]
    as [None]. *)

From Stdlib Require Import ZArith Ascii String List Bool Lia.
From stdpp Require Import gmap strings list fin_maps sorting.
Import ListNotations.
Local Open Scope string_scope.
Local Open Scope Z_scope.

(** ** JavaScript string helpers *)

Module Js.

(** [s.toLowerCase()] on the ASCII range. *)
Definition lower_ascii (c : ascii) : ascii :=
  let n := nat_of_ascii c in
  if ((65 <=? n) && (n <=? 90))%nat then ascii_of_nat (n + 32) else c.

Fixpoint toLowerCase (s : string) : string :=
  match s with
  | EmptyString => EmptyString
  | String c s' => String (lower_ascii c) (toLowerCase s')
  end.

(** [s.startsWith(pat)]. *)
Fixpoint startsWith (pat s : string) : bool :=
  match pat, s with
  | EmptyString, _ => true
  | String _ _, EmptyString => false
  | String a pat', String b s' => Ascii.eqb a b && startsWith pat' s'
  end.

(** [s.includes(pat)]: [pat] occurs somewhere in [s]. *)
Fixpoint includes (pat s : string) : bool :=
  startsWith pat s ||
  match s with
  | EmptyString => false
  | String _ s' => includes pat s'
  end.

(** [s.split(sep)] for a one-character separator: never empty. *)
Fixpoint split (sep : ascii) (s : string) : list string :=
  match s with
  | EmptyString => [EmptyString]
  | String c s' =>
      if Ascii.eqb c sep then EmptyString :: split sep s'
      else match split sep s' with
           | [] => [String c EmptyString]
           | x :: xs => String c x :: xs
           end
  end.

(** A value is truthy when it is defined and not the empty string. *)
Definition truthy (v : option string) : bool :=
  match v with
  | Some s => negb (String.eqb s "")
  | None => false
  end.

(** The suffix of [s] that starts at its last ['.'], if it has one. *)
Fixpoint last_dot_suffix (s : string) : option string :=
  match s with
  | EmptyString => None
  | String c s' =>
      match last_dot_suffix s' with
      | Some t => Some t
      | None => if Ascii.eqb c "." then Some s else None
      end
  end.

(** [path.basename(p)]: the last non-empty ['/']-separated part. *)
Definition basename (p : string) : string :=
  List.last (List.filter (fun x => negb (String.eqb x "")) (split "/" p)) "".

(** [path.extname(p)] (POSIX): from the last ['.'] of the base name to its
    end; empty when there is no dot, when the only dot is the first
    character of the base name, and for the base name [".."]. *)
Definition extname (p : string) : string :=
  match basename p with
  | EmptyString => ""
  | String c rest =>
      if String.eqb (String c rest) ".." then ""
      else match last_dot_suffix rest with
           | Some t => t
           | None => ""
           end
  end.

End Js.

(** ** Errors and HTTP responses *)

(** A thrown JavaScript error.  [multer_code] is [Some code] exactly when the
    error is an instance of [multer.MulterError]. *)
Record Error := mkError {
  multer_code : option string;
  message : string
}.

Definition plain_error (msg : string) : Error :=
  {| multer_code := None; message := msg |}.

Definition MulterError (code msg : string) : Error :=
  {| multer_code := Some code; message := msg |}.

Inductive Result (A : Type) : Type :=
| Ok (a : A)
| Throw (e : Error).
Arguments Ok {A} a.
Arguments Throw {A} e.

(** ** Files of a multipart upload *)

Module File.
(** A file part as multer hands it to [fileFilter]; [size] is the number
    of bytes the client sends for it. *)
Record t := mk {
  fieldname : string;
  originalname : string;
  mimetype : string;
  size : Z
}.
End File.

(** [const allowedTypes = /jpeg|jpg|png|gif|webp/]: the pattern is not
    anchored, so [test] searches for one of the alternatives anywhere. *)
Definition allowedTypes : list string := ["jpeg"; "jpg"; "png"; "gif"; "webp"].

Definition allowedTypes_test (s : string) : bool :=
  existsb (fun alt => Js.includes alt s) allowedTypes.

Definition only_images : Error := plain_error "Only image files are allowed!".

(** The [fileFilter] callback of the multer configuration: [Ok true] is
    [cb(null, true)], [Throw e] is [cb(e)]. *)
Definition fileFilter (file : File.t) : Result bool :=
  let extname := allowedTypes_test (Js.toLowerCase (Js.extname (File.originalname file))) in
  let mimetype := allowedTypes_test (File.mimetype file) in
  if mimetype && extname then Ok true else Throw only_images.

(** [limits.fileSize]. *)
Definition fileSize : Z := 10 * 1024 * 1024.

(** ** The environment: what the external services answer *)

(** The queries the server sends to the Metadata Store. *)
Inductive DbCall :=
| Find
| FindById (id : string)
| FindOne (filename : string)
| FindByIdAndDelete (id : string)
| Save (id : string).

(** What the Cloudinary storage engine adds to a file object once the
    bytes are stored. *)
Record StorageInfo := mkStorageInfo {
  stored_path : string;
  stored_size : Z;
  stored_filename : string;
  stored_public_id : option string
}.

Record Env := mkEnv {
  (** [Some e]: the query rejects with [e] (connection lost, an id that
      cannot be cast to an ObjectId, ...). *)
  db_rejects : DbCall -> option Error;
  (** [Some e]: [cloudinary.uploader.destroy(publicId)] rejects with [e]. *)
  destroy_rejects : string -> option Error;
  (** The outcome of streaming a file to the Media Store. *)
  handleFile : File.t -> Result StorageInfo;
  (** The [_id] and the [Date.now()] of the n-th constructed document. *)
  ObjectId : nat -> string;
  Date_now : nat -> Z;
  (** Whether a file of exactly [fileSize] bytes already trips the limit
      (the multipart parser decides; versions differ). *)
  limit_inclusive : bool;
  (** The order in which the Metadata Store returns, for this query,
      documents with the same sort key: the lower rank comes first.  The
      store promises nothing about it, and it may differ from one query to
      the next. *)
  tie_rank : string -> Z
}.

(** ** The Metadata Store: the Mongoose model [Image] *)

Module Image.

(** [imageSchema]. *)
Record fields := mkFields {
  filename : string;
  originalName : string;
  mimetype : string;
  size : Z;
  path : option string;
  public_id : option string;
  uploadDate : Z
}.

(** A document: the schema fields under their [_id]. *)
Record t := doc {
  _id : string;
  data : fields
}.

Definition of_entry (kv : string * fields) : t := doc kv.1 kv.2.

(** [{ uploadDate: -1 }]: [a] may come before [b]. *)
Definition newer_first (a b : t) : Prop :=
  (uploadDate (data b) <= uploadDate (data a))%Z.

#[global] Instance newer_first_dec a b : Decision (newer_first a b) :=
  Z_le_dec (uploadDate (data b)) (uploadDate (data a)).

(** The order of one answer of the store to [sort({ uploadDate: -1 })]:
    newer documents first, and among documents with the same [uploadDate]
    whatever order [rank] gives for this query. *)
Definition returned_before (rank : string -> Z) (a b : t) : Prop :=
  (uploadDate (data b) < uploadDate (data a))%Z
  ∨ (uploadDate (data a) = uploadDate (data b)
     ∧ (rank (_id a) <= rank (_id b))%Z).

#[global] Instance returned_before_dec rank a b : Decision (returned_before rank a b) :=
  or_dec (decide (uploadDate (data b) < uploadDate (data a))%Z)
         (and_dec (decide (uploadDate (data a) = uploadDate (data b)))
                  (decide (rank (_id a) <= rank (_id b))%Z)).

Section queries.
Variable env : Env.
Variable coll : gmap string fields.

(** [Image.find().sort({ uploadDate: -1 })]: [uploadDate] is the only
    sort key, so the place of documents with equal dates is the store's
    choice for this query. *)
Definition find_sort : Result (list t) :=
  match db_rejects env Find with
  | Some e => Throw e
  | None =>
      Ok (merge_sort (returned_before (tie_rank env)) (of_entry <$> map_to_list coll))
  end.

(** [Image.findById(id)]: [Ok None] is [null]. *)
Definition findById (id : string) : Result (option t) :=
  match db_rejects env (FindById id) with
  | Some e => Throw e
  | None => Ok (doc id <$> coll !! id)
  end.

(** [Image.findOne({ filename })]. *)
Definition findOne (name : string) : Result (option t) :=
  match db_rejects env (FindOne name) with
  | Some e => Throw e
  | None =>
      Ok (List.find (fun image => String.eqb (filename (data image)) name)
            (of_entry <$> map_to_list coll))
  end.

(** [Image.findByIdAndDelete(id)]: the collection that remains. *)
Definition findByIdAndDelete (id : string) : Result (gmap string fields) :=
  match db_rejects env (FindByIdAndDelete id) with
  | Some e => Throw e
  | None => Ok (delete id coll)
  end.

(** [image.save()] of a new document; [_id] is a unique key. *)
Definition save (image : t) : Result (gmap string fields) :=
  match db_rejects env (Save (_id image)) with
  | Some e => Throw e
  | None =>
      match coll !! _id image with
      | Some _ => Throw (plain_error "E11000 duplicate key error")
      | None => Ok (<[_id image := data image]> coll)
      end
  end.
End queries.

End Image.

(** ** The state of the world *)

Inductive CloudinaryCall :=
| upload_stream (file : File.t)
| destroy (publicId : string).

Record World := mkWorld {
  images : gmap string Image.fields;
  cloudinary : list CloudinaryCall;
  console : list (string * string);
  constructed : nat
}.

Definition set_images (coll : gmap string Image.fields) (w : World) : World :=
  {| images := coll; cloudinary := cloudinary w;
     console := console w; constructed := constructed w |}.

Definition called (c : CloudinaryCall) (w : World) : World :=
  {| images := images w; cloudinary := cloudinary w ++ [c];
     console := console w; constructed := constructed w |}.

(** [console.error(label, error)]. *)
Definition console_error (label : string) (e : Error) (w : World) : World :=
  {| images := images w; cloudinary := cloudinary w;
     console := console w ++ [(label, message e)]; constructed := constructed w |}.

Definition tick (w : World) : World :=
  {| images := images w; cloudinary := cloudinary w;
     console := console w; constructed := S (constructed w) |}.

(** ** Responses *)

Inductive Body :=
| json_error (error : string)
| json_message (message : string)
| json_uploaded (message : string) (images : list Image.t)
| json_images (imagesWithUrl : list (Image.t * option string))
| json_liveness (activeStatus error : bool)
| redirect (location : option string).

Record Response := res {
  status : Z;
  body : Body
}.


(** [res.json(body)] answers with status 200. *)
Definition res_json (b : Body) : Response := res 200 b.

(** [res.redirect(url)] answers with status 302 and [Location: url]. *)
Definition res_redirect (url : option string) : Response := res 302 (redirect url).

(** ** The upload middleware: [upload.array("images", 10)] *)

(** A file object after the storage engine has handled it. *)
Record Uploaded := mkUploaded {
  part : File.t;
  info : StorageInfo
}.

Inductive RequestBody :=
| multipart (parts : list File.t)
| not_multipart.

Definition LIMIT_FILE_SIZE : Error := MulterError "LIMIT_FILE_SIZE" "File too large".
Definition LIMIT_UNEXPECTED_FILE : Error := MulterError "LIMIT_UNEXPECTED_FILE" "Unexpected field".

Definition exceeds_limit (env : Env) (file : File.t) : bool :=
  (fileSize <? File.size file) ||
  (limit_inclusive env && (File.size file =? fileSize)).

(** The parts of the body are taken in order.  For each one multer checks
    the field name and the remaining count, then calls [fileFilter], and
    only then hands the part to the storage engine, counting its bytes
    against [limits.fileSize] while they stream.  The first error aborts
    the request.

    The trace covers the request up to that first error, with the parts
    taken one after the other.  What multer does afterwards is not recorded
    here: it asks the storage engine to remove the files already stored
    (a [destroy] at Cloudinary for each), and parts that arrive while an
    earlier upload is still pending are filtered, and may be streamed,
    before that upload is settled.  No statement below says that such calls
    are absent. *)
Fixpoint upload_parts (env : Env) (name : string) (filesLeft : nat)
    (parts : list File.t) (w : World) {struct parts}
    : Result (list Uploaded) * World :=
  match parts with
  | [] => (Ok [], w)
  | file :: rest =>
      match filesLeft with
      | O => (Throw LIMIT_UNEXPECTED_FILE, w)
      | S remaining =>
          if negb (String.eqb (File.fieldname file) name)
          then (Throw LIMIT_UNEXPECTED_FILE, w)
          else
            match fileFilter file with
            | Throw e => (Throw e, w)
            | Ok false => upload_parts env name remaining rest w
            | Ok true =>
                let w1 := called (upload_stream file) w in
                if exceeds_limit env file then (Throw LIMIT_FILE_SIZE, w1)
                else
                  match handleFile env file with
                  | Throw e => (Throw e, w1)
                  | Ok i =>
                      match upload_parts env name remaining rest w1 with
                      | (Ok files, w2) => (Ok (mkUploaded file i :: files), w2)
                      | (Throw e, w2) => (Throw e, w2)
                      end
                  end
            end
      end
  end.

(** [req.files] after the middleware: [None] is [undefined] (the body was
    not multipart, multer did not look at it). *)
Definition upload_array (env : Env) (name : string) (maxCount : nat)
    (b : RequestBody) (w : World) : Result (option (list Uploaded)) * World :=
  match b with
  | not_multipart => (Ok None, w)
  | multipart parts =>
      match upload_parts env name maxCount parts w with
      | (Ok files, w1) => (Ok (Some files), w1)
      | (Throw e, w1) => (Throw e, w1)
      end
  end.

(** ** Route handlers *)

(** [new Image({...})] for an uploaded file: the [_id] and the default
    [uploadDate] are taken when the document is constructed. *)
Definition new_Image (env : Env) (n : nat) (file : Uploaded) : Image.t :=
  Image.doc (ObjectId env n)
    {| Image.filename := stored_filename (info file);
       Image.originalName := File.originalname (part file);
       Image.mimetype := File.mimetype (part file);
       Image.size := stored_size (info file);
       Image.path := Some (stored_path (info file));
       Image.public_id := stored_public_id (info file);
       Image.uploadDate := Date_now env n |}.

(** [req.files.map((file) => { ...; return newImage.save(); })]: every
    save is started; the ones that resolve persist whatever the others do. *)
Fixpoint save_each (env : Env) (files : list Uploaded) (w : World)
    : list (Result Image.t) * World :=
  match files with
  | [] => ([], w)
  | file :: rest =>
      let newImage := new_Image env (constructed w) file in
      let w1 := tick w in
      match Image.save env (images w1) newImage with
      | Ok coll =>
          let (rs, w2) := save_each env rest (set_images coll w1) in
          (Ok newImage :: rs, w2)
      | Throw e =>
          let (rs, w2) := save_each env rest w1 in
          (Throw e :: rs, w2)
      end
  end.

(** [Promise.all]: all the values, or the first rejection. *)
Fixpoint Promise_all {A} (ps : list (Result A)) : Result (list A) :=
  match ps with
  | [] => Ok []
  | Throw e :: _ => Throw e
  | Ok a :: rest =>
      match Promise_all rest with
      | Ok l => Ok (a :: l)
      | Throw e => Throw e
      end
  end.

Definition undefined_map : Error :=
  plain_error "Cannot read properties of undefined (reading 'map')".

(** The handler of [POST /api/upload], after the upload middleware. *)
Definition post_upload (env : Env) (files : option (list Uploaded)) (w : World)
    : Response * World :=
  match files with
  | None =>
      (res 500 (json_error "Failed to upload images"),
       console_error "Upload error:" undefined_map w)
  | Some files =>
      let (imagePromises, w1) := save_each env files w in
      match Promise_all imagePromises with
      | Ok savedImages =>
          (res 201 (json_uploaded "Images uploaded successfully" savedImages), w1)
      | Throw error =>
          (res 500 (json_error "Failed to upload images"),
           console_error "Upload error:" error w1)
      end
  end.

(** [GET /api/images]. *)
Definition get_images (env : Env) (w : World) : Response * World :=
  match Image.find_sort env (images w) with
  | Ok found =>
      let imagesWithUrl :=
        List.map (fun image => (image, Image.path (Image.data image))) found in
      (res_json (json_images imagesWithUrl), w)
  | Throw error =>
      (res 500 (json_error "Failed to fetch images"),
       console_error "Fetch error:" error w)
  end.

(** [GET /api/download/:id]. *)
Definition get_download (env : Env) (id : string) (w : World) : Response * World :=
  match Image.findById env (images w) id with
  | Ok None => (res 404 (json_error "Image not found"), w)
  | Ok (Some image) => (res_redirect (Image.path (Image.data image)), w)
  | Throw error =>
      (res 500 (json_error "Failed to download image"),
       console_error "Download error:" error w)
  end.

(** [GET /api/download/file/:filename]. *)
Definition get_download_file (env : Env) (name : string) (w : World)
    : Response * World :=
  match Image.findOne env (images w) name with
  | Ok None => (res 404 (json_error "Image not found"), w)
  | Ok (Some image) => (res_redirect (Image.path (Image.data image)), w)
  | Throw error =>
      (res 500 (json_error "Failed to download image"),
       console_error "Download error:" error w)
  end.

(** The value of [publicId] when the delete handler reaches
    [if (publicId)]: the stored [public_id], or, when that is falsy and the
    document has a [path], what is cut out of the URL. *)
Definition derive_publicId (image : Image.t) : option string :=
  let publicId := Image.public_id (Image.data image) in
  if negb (Js.truthy publicId) && Js.truthy (Image.path (Image.data image)) then
    match Image.path (Image.data image) with
    | Some p =>
        let urlParts := Js.split "/" p in
        let publicIdWithExtension := List.last urlParts "" in
        Some (List.hd "" (Js.split "." publicIdWithExtension))
    | None => publicId
    end
  else publicId.

(** [if (publicId) { try { await cloudinary.uploader.destroy(publicId) }
    catch (cloudinaryError) { console.error(...) } }]. *)
Definition destroy_logged (env : Env) (publicId : option string) (w : World) : World :=
  match publicId with
  | Some handle =>
      if Js.truthy publicId then
        let w1 := called (destroy handle) w in
        match destroy_rejects env handle with
        | Some cloudinaryError =>
            console_error "Cloudinary deletion error:" cloudinaryError w1
        | None => w1
        end
      else w
  | None => w
  end.

(** [DELETE /api/images/:id]. *)
Definition delete_image (env : Env) (id : string) (w : World) : Response * World :=
  match Image.findById env (images w) id with
  | Ok None => (res 404 (json_error "Image not found"), w)
  | Ok (Some image) =>
      let w1 := destroy_logged env (derive_publicId image) w in
      match Image.findByIdAndDelete env (images w1) id with
      | Ok coll =>
          (res_json (json_message "Image deleted successfully"), set_images coll w1)
      | Throw error =>
          (res 500 (json_error "Failed to delete image"),
           console_error "Delete error:" error w1)
      end
  | Throw error =>
      (res 500 (json_error "Failed to delete image"),
       console_error "Delete error:" error w)
  end.

(** The error handling middleware. *)
Definition error_middleware (error : Error) : Response :=
  match multer_code error with
  | Some code =>
      if String.eqb code "LIMIT_FILE_SIZE"
      then res 400 (json_error "File too large")
      else res 500 (json_error (message error))
  | None => res 500 (json_error (message error))
  end.

(** [app.post("/api/upload", upload.array("images", 10), handler)]: an error
    of the middleware skips the handler and reaches the error middleware. *)
Definition post_api_upload (env : Env) (b : RequestBody) (w : World)
    : Response * World :=
  match upload_array env "images" 10 b w with
  | (Ok files, w1) => post_upload env files w1
  | (Throw error, w1) => (error_middleware error, w1)
  end.

(** [GET /]. *)
Definition get_root : Response := res_json (json_liveness true false).

(** ** What the specification's words say, for comparison *)

(** "its extension stripped": the name without its last ['.'] and what
    follows it; a name without a dot is left as it is. *)
Fixpoint strip_extension (name : string) : string :=
  match name with
  | EmptyString => EmptyString
  | String c rest =>
      if Ascii.eqb c "." && negb (Js.includes "." rest) then EmptyString
      else String c (strip_extension rest)
  end.

Definition last_segment (p : string) : string := List.last (Js.split "/" p) "".

(** The number of ['.'] in a name. *)
Fixpoint dots (name : string) : nat :=
  match name with
  | EmptyString => 0
  | String c rest => ((if Ascii.eqb c "." then 1 else 0) + dots rest)%nat
  end.

(** "the set {jpeg, jpg, png, gif, webp}". *)
Definition in_allowed_set (s : string) : bool :=
  existsb (String.eqb s) allowedTypes.

(** The extension of a file name without its leading dot. *)
Definition extension (name : string) : string :=
  match Js.extname name with
  | EmptyString => EmptyString
  | String c e => if Ascii.eqb c "." then e else String c e
  end.

(** The MIME type of an image format: [image/] and the format's name. *)
Definition mime_of (format : string) : string := "image/" ++ format.

(** "both its lowercased filename extension and its client-declared MIME
    type belong to the set": the extension is one of the five names and the
    MIME type is the type of one of the five formats, so that [cat.png]
    declared as [image/png] passes. *)
Definition type_check_as_specified (file : File.t) : bool :=
  in_allowed_set (Js.toLowerCase (extension (File.originalname file))) &&
  existsb (String.eqb (File.mimetype file)) (List.map mime_of allowedTypes).

(** The extensions and MIME types of the five image formats. *)
Definition image_extensions : list string :=
  [".jpeg"; ".jpg"; ".png"; ".gif"; ".webp"].

Definition image_mimetypes : list string :=
  ["image/jpeg"; "image/jpg"; "image/png"; "image/gif"; "image/webp"].

(** Is the file accepted by the type check of the upload configuration? *)
Definition accepted (file : File.t) : bool :=
  match fileFilter file with
  | Ok true => true
  | _ => false
  end.

(** ** The Gallery Client *)

Module Client.

(** An element of the list the server answers [GET /api/images] with. *)
Record image := mkImage {
  _id : string;
  data : Image.fields;
  url : option string
}.

(** The [useState] cells of [GalleryApp]. *)
Record State := mkState {
  images : list image;
  selectedImage : option image;
  isUploading : bool;
  isLoading : bool;
  error : option string
}.

Definition setImages (f : list image -> list image) (st : State) : State :=
  {| images := f (images st); selectedImage := selectedImage st;
     isUploading := isUploading st; isLoading := isLoading st; error := error st |}.

Definition setSelectedImage (v : option image) (st : State) : State :=
  {| images := images st; selectedImage := v;
     isUploading := isUploading st; isLoading := isLoading st; error := error st |}.

Definition setError (v : option string) (st : State) : State :=
  {| images := images st; selectedImage := selectedImage st;
     isUploading := isUploading st; isLoading := isLoading st; error := v |}.

(** How [await fetch(...)] ends: it throws, or there is a response with
    its [ok] flag. *)
Inductive Fetch :=
| network_error
| response (ok : bool).

(** [deleteImage(id)] runs in two steps, with the request in between.  At
    the click it clears the error. *)
Definition deleteImage_click (st : State) : State := setError None st.

(** When the request is answered, [setImages] is given a function and so
    works on the images of that moment, those of [st]; the test
    [selectedImage && selectedImage._id === id] reads the variable of the
    render whose handler was clicked: [selected] is the detail view as it
    was at the click, whatever [st] shows by now. *)
Definition deleteImage_settle (outcome : Fetch) (id : string)
    (selected : option image) (st : State) : State :=
  match outcome with
  | response true =>
      let st2 :=
        setImages (fun prev =>
          List.filter (fun img => negb (String.eqb (_id img) id)) prev) st in
      match selected with
      | Some shown =>
          if String.eqb (_id shown) id then setSelectedImage None st2 else st2
      | None => st2
      end
  | _ => setError (Some "Failed to delete image. Please try again.") st
  end.

(** [deleteImage(id)] when nothing else happens between the click and the
    answer. *)
Definition deleteImage (outcome : Fetch) (id : string) (st : State) : State :=
  deleteImage_settle outcome id (selectedImage st) (deleteImage_click st).

Definition openModal (img : image) (st : State) : State :=
  setSelectedImage (Some img) st.

Definition closeModal (st : State) : State := setSelectedImage None st.

Definition setIsLoading (v : bool) (st : State) : State :=
  {| images := images st; selectedImage := selectedImage st;
     isUploading := isUploading st; isLoading := v; error := error st |}.

Definition setIsUploading (v : bool) (st : State) : State :=
  {| images := images st; selectedImage := selectedImage st;
     isUploading := v; isLoading := isLoading st; error := error st |}.

(** How [fetch(`${API_BASE_URL}/images`)] followed by [response.json()]
    ends.  [json] is the value of [await response.json()], which is only
    awaited when [ok] holds: [Some data] for a body that is a JSON list,
    [None] when [response.json()] rejects (the body is not JSON), which
    throws into the [catch] like a failed [fetch].  The cell [images] holds
    a list, so a body that is JSON but not a list, which [setImages(data)]
    would store as it is, has no counterpart in this type; the list route
    never sends one with an ok status. *)
Inductive ListFetch :=
| list_network_error
| list_response (ok : bool) (json : option (list image)).

Definition load_failed : string :=
  "Failed to load images. Make sure the backend server is running.".

(** [fetchImages()]: the [finally] block runs on every path. *)
Definition fetchImages (outcome : ListFetch) (st : State) : State :=
  let st1 := setError None (setIsLoading true st) in
  let st2 :=
    match outcome with
    | list_response true (Some data) => setImages (fun _ => data) st1
    | _ => setError (Some load_failed) st1
    end in
  setIsLoading false st2.

(** A [File] of the browser, as found in [event.target.files]. *)
Record BrowserFile := mkBrowserFile {
  name : string;
  type : string;
  size : Z
}.

(** How the [POST] of the form data ends; [json] tells whether
    [response.json()] resolves. *)
Inductive UploadFetch :=
| upload_network_error
| upload_response (ok : bool) (json : bool).

Definition upload_failed : string := "Failed to upload images. Please try again.".

(** The files appended to the form data. *)
Definition formData (files : list BrowserFile) : list BrowserFile :=
  List.filter (fun file => Js.startsWith "image/" (type file)) files.

(** [handleFileUpload(event)] for the selected [files]: the new state, and
    the files of the request when one is sent.  [refresh] is the outcome of
    the [fetchImages()] that follows a successful upload. *)
Definition handleFileUpload (files : list BrowserFile) (upload : UploadFetch)
    (refresh : ListFetch) (st : State) : State * option (list BrowserFile) :=
  match files with
  | [] => (st, None)
  | _ :: _ =>
      let st1 := setError None (setIsUploading true st) in
      let st2 :=
        match upload with
        | upload_response true true => fetchImages refresh st1
        | _ => setError (Some upload_failed) st1
        end in
      (setIsUploading false st2, Some (formData files))
  end.

End Client.

(** ** The client in front of the server *)

(** [response.ok]: the status is in the range 200-299. *)
Definition response_ok (r : Response) : bool :=
  (200 <=? status r) && (status r <=? 299).

(** A file of the form data as the part multer reads: the client appends
    every file under the name ["images"]. *)
Definition to_part (file : Client.BrowserFile) : File.t :=
  {| File.fieldname := "images";
     File.originalname := Client.name file;
     File.mimetype := Client.type file;
     File.size := Client.size file |}.

Definition of_json (entry : Image.t * option string) : Client.image :=
  {| Client._id := Image._id entry.1;
     Client.data := Image.data entry.1;
     Client.url := entry.2 |}.

(** What the client's [fetch] sees of an answer of the list route.  A body
    other than a list comes from that route only with status 500, and is
    then never read. *)
Definition list_fetch (r : Response) : Client.ListFetch :=
  Client.list_response (response_ok r)
    match body r with
    | json_images l => Some (List.map of_json l)
    | _ => None
    end.

Definition upload_fetch (r : Response) : Client.UploadFetch :=
  Client.upload_response (response_ok r) true.

Definition delete_fetch (r : Response) : Client.Fetch :=
  Client.response (response_ok r).

(** The documents of a collection in the order of one answer to
    [sort({ uploadDate: -1 })]. *)
Definition sorted_documents (rank : string -> Z) (coll : gmap string Image.fields)
    : list Image.t :=
  merge_sort (Image.returned_before rank) (Image.of_entry <$> map_to_list coll).

(** ** Sample data *)

(** An environment in which no call to an external service rejects. *)
Definition quiet_env : Env :=
  {| db_rejects := fun _ => None;
     destroy_rejects := fun _ => None;
     handleFile := fun file =>
       Ok {| stored_path := "https://res.cloudinary.com/demo/image/upload/v1/uploads/1700000000000-42.png";
             stored_size := File.size file;
             stored_filename := "uploads/1700000000000-42";
             stored_public_id := None |};
     ObjectId := fun n => if Nat.eqb n 0 then "65a000000000000000000010" else "65a000000000000000000011";
     Date_now := fun n => 1700000000000 + Z.of_nat n;
     limit_inclusive := false;
     tie_rank := fun _ => 0 |}.

(** The same environment, except that Cloudinary refuses every deletion. *)
Definition cloudinary_down : Env :=
  {| db_rejects := db_rejects quiet_env;
     destroy_rejects := fun _ => Some (plain_error "Request Timeout");
     handleFile := handleFile quiet_env;
     ObjectId := ObjectId quiet_env;
     Date_now := Date_now quiet_env;
     limit_inclusive := false;
     tie_rank := fun _ => 0 |}.

Definition sunset : Image.fields :=
  {| Image.filename := "uploads/1690000000000-7";
     Image.originalName := "sunset.png";
     Image.mimetype := "image/png";
     Image.size := 52000;
     Image.path := Some "https://res.cloudinary.com/demo/image/upload/v1/uploads/1690000000000-7.png";
     Image.public_id := Some "uploads/1690000000000-7";
     Image.uploadDate := 1690000000000 |}.

(** A document from before [public_id] was stored. *)
Definition holiday : Image.fields :=
  {| Image.filename := "holiday.2023.jpg";
     Image.originalName := "holiday.2023.jpg";
     Image.mimetype := "image/jpeg";
     Image.size := 81000;
     Image.path := Some "https://res.cloudinary.com/demo/image/upload/v1/holiday.2023.jpg";
     Image.public_id := None;
     Image.uploadDate := 1680000000000 |}.

Definition empty_world : World :=
  {| images := ∅; cloudinary := []; console := []; constructed := 0 |}.

Definition two_images : World :=
  {| images := <["65a000000000000000000001" := sunset]>
                 (<["65a000000000000000000002" := holiday]> ∅);
     cloudinary := []; console := []; constructed := 0 |}.

Definition cat_png : File.t :=
  {| File.fieldname := "images"; File.originalname := "cat.png";
     File.mimetype := "image/png"; File.size := 4096 |}.

Definition cat_pngx : File.t :=
  {| File.fieldname := "images"; File.originalname := "cat.pngx";
     File.mimetype := "image/png"; File.size := 4096 |}.

Definition big_png : File.t :=
  {| File.fieldname := "images"; File.originalname := "poster.png";
     File.mimetype := "image/png"; File.size := 20000000 |}.


Definition notes_txt : File.t :=
  {| File.fieldname := "images"; File.originalname := "notes.txt";
     File.mimetype := "text/plain"; File.size := 120 |}.

(** An environment in which the Metadata Store refuses to save the second
    document of a batch. *)
Definition second_save_fails : Env :=
  {| db_rejects := fun call =>
       match call with
       | Save id =>
           if String.eqb id "65a000000000000000000011"
           then Some (plain_error "connection lost") else None
       | _ => None
       end;
     destroy_rejects := destroy_rejects quiet_env;
     handleFile := handleFile quiet_env;
     ObjectId := ObjectId quiet_env;
     Date_now := Date_now quiet_env;
     limit_inclusive := false;
     tie_rank := fun _ => 0 |}.

(** An environment in which the Metadata Store refuses to delete. *)
Definition delete_fails : Env :=
  {| db_rejects := fun call =>
       match call with
       | FindByIdAndDelete _ => Some (plain_error "connection lost")
       | _ => None
       end;
     destroy_rejects := destroy_rejects quiet_env;
     handleFile := handleFile quiet_env;
     ObjectId := ObjectId quiet_env;
     Date_now := Date_now quiet_env;
     limit_inclusive := false;
     tie_rank := fun _ => 0 |}.

Definition dog_jpg : File.t :=
  {| File.fieldname := "images"; File.originalname := "dog.JPG";
     File.mimetype := "image/jpeg"; File.size := 8192 |}.

Definition avatar_png : File.t :=
  {| File.fieldname := "avatar"; File.originalname := "me.png";
     File.mimetype := "image/png"; File.size := 2048 |}.

(** A document with neither [public_id] nor [path]. *)
Definition bare : Image.fields :=
  {| Image.filename := "bare";
     Image.originalName := "bare.png";
     Image.mimetype := "image/png";
     Image.size := 10;
     Image.path := None;
     Image.public_id := None;
     Image.uploadDate := 1670000000000 |}.

Definition three_images : World :=
  {| images := <["65a000000000000000000003" := bare]> (images two_images);
     cloudinary := []; console := []; constructed := 0 |}.

Definition readme_md : Client.BrowserFile :=
  {| Client.name := "README.md"; Client.type := "text/markdown"; Client.size := 900 |}.

Definition gallery : Client.State :=
  {| Client.images :=
       [ {| Client._id := "65a000000000000000000001"; Client.data := sunset;
            Client.url := Image.path sunset |} ];
     Client.selectedImage := None;
     Client.isUploading := false;
     Client.isLoading := false;
     Client.error := Some "stale" |}.

(** The gallery showing the two documents of [two_images]. *)
Definition gallery_of_two : Client.State :=
  {| Client.images :=
       [ {| Client._id := "65a000000000000000000001"; Client.data := sunset;
            Client.url := Image.path sunset |};
         {| Client._id := "65a000000000000000000002"; Client.data := holiday;
            Client.url := Image.path holiday |} ];
     Client.selectedImage := None;
     Client.isUploading := false;
     Client.isLoading := false;
     Client.error := None |}.

(** An environment in which the id [abc] cannot be cast to an identifier:
    the lookup by id is rejected. *)
Definition cast_fails : Env :=
  {| db_rejects := fun call =>
       match call with
       | FindById id =>
           if String.eqb id "abc"
           then Some (plain_error "Cast to ObjectId failed for value abc at path _id")
           else None
       | _ => None
       end;
     destroy_rejects := destroy_rejects quiet_env;
     handleFile := handleFile quiet_env;
     ObjectId := ObjectId quiet_env;
     Date_now := Date_now quiet_env;
     limit_inclusive := false;
     tie_rank := fun _ => 0 |}.

(** Two documents constructed in the same millisecond. *)
Definition twin_a : Image.fields :=
  {| Image.filename := "uploads/1700000000000-1";
     Image.originalName := "a.png";
     Image.mimetype := "image/png";
     Image.size := 100;
     Image.path := Some "https://res.cloudinary.com/demo/image/upload/v1/uploads/1700000000000-1.png";
     Image.public_id := None;
     Image.uploadDate := 1700000000000 |}.

Definition twin_b : Image.fields :=
  {| Image.filename := "uploads/1700000000000-2";
     Image.originalName := "b.png";
     Image.mimetype := "image/png";
     Image.size := 200;
     Image.path := Some "https://res.cloudinary.com/demo/image/upload/v1/uploads/1700000000000-2.png";
     Image.public_id := None;
     Image.uploadDate := 1700000000000 |}.

Definition twins : World :=
  {| images := <["65b000000000000000000001" := twin_a]>
                 (<["65b000000000000000000002" := twin_b]> ∅);
     cloudinary := []; console := []; constructed := 0 |}.

(** Two answers of the store that differ only in the order they give to
    documents with equal dates. *)
Definition ties_a_first : Env :=
  {| db_rejects := db_rejects quiet_env;
     destroy_rejects := destroy_rejects quiet_env;
     handleFile := handleFile quiet_env;
     ObjectId := ObjectId quiet_env;
     Date_now := Date_now quiet_env;
     limit_inclusive := false;
     tie_rank := fun id =>
       if String.eqb id "65b000000000000000000001" then 0 else 1 |}.

Definition ties_b_first : Env :=
  {| db_rejects := db_rejects quiet_env;
     destroy_rejects := destroy_rejects quiet_env;
     handleFile := handleFile quiet_env;
     ObjectId := ObjectId quiet_env;
     Date_now := Date_now quiet_env;
     limit_inclusive := false;
     tie_rank := fun id =>
       if String.eqb id "65b000000000000000000001" then 1 else 0 |}.

Definition sunset_image : Client.image :=
  {| Client._id := "65a000000000000000000001"; Client.data := sunset;
     Client.url := Image.path sunset |}.

Definition holiday_image : Client.image :=
  {| Client._id := "65a000000000000000000002"; Client.data := holiday;
     Client.url := Image.path holiday |}.

(** * Properties *)

#[global] Instance newer_first_total : Total Image.newer_first.
Proof. intros a b. unfold Image.newer_first. lia. Qed.

#[global] Instance newer_first_trans : Transitive Image.newer_first.
Proof. intros a b c. unfold Image.newer_first. lia. Qed.

#[global] Instance returned_before_total rank : Total (Image.returned_before rank).
Proof. intros a b. unfold Image.returned_before. lia. Qed.

#[global] Instance returned_before_trans rank : Transitive (Image.returned_before rank).
Proof. intros a b c. unfold Image.returned_before. lia. Qed.

Lemma StronglySorted_weaken {A} (R S : A → A → Prop) (l : list A) :
  (∀ a b, R a b → S a b) → StronglySorted R l → StronglySorted S l.
Proof.
  intros HRS. induction 1 as [|a l Hl IH Hall]; constructor; [done|].
  eapply Forall_impl; [exact Hall | auto].
Qed.

#[global] Instance of_entry_inj : Inj (=) (=) Image.of_entry.
Proof. intros [i a] [j b] H. unfold Image.of_entry in H. simpl in H. congruence. Qed.

(** ** The list endpoint *)

Section list_endpoint.
Variable env : Env.
Variable rank : string → Z.
Variable coll : gmap string Image.fields.

Lemma sorted_documents_sorted :
  StronglySorted Image.newer_first (sorted_documents rank coll).
Proof.
  apply (StronglySorted_weaken (Image.returned_before rank)).
  - intros a b. unfold Image.returned_before, Image.newer_first. lia.
  - apply StronglySorted_merge_sort; apply _.
Qed.

Lemma sorted_documents_Permutation :
  sorted_documents rank coll ≡ₚ Image.of_entry <$> map_to_list coll.
Proof. apply merge_sort_Permutation. Qed.

Lemma sorted_documents_elem (image : Image.t) :
  image ∈ sorted_documents rank coll
  ↔ coll !! Image._id image = Some (Image.data image).
Proof.
  unfold sorted_documents. rewrite merge_sort_Permutation.
  rewrite list_elem_of_fmap. split.
  - intros [[i d] [-> Hin]]. simpl. by apply elem_of_map_to_list.
  - intros Hl. exists (Image._id image, Image.data image). split.
    + by destruct image.
    + by apply elem_of_map_to_list.
Qed.

Lemma sorted_documents_NoDup : NoDup (sorted_documents rank coll).
Proof.
  unfold sorted_documents. rewrite merge_sort_Permutation.
  apply NoDup_fmap_2; [apply _ | apply NoDup_map_to_list].
Qed.

Lemma find_sort_resolves :
  db_rejects env Find = None →
  Image.find_sort env coll = Ok (sorted_documents (tie_rank env) coll).
Proof. intros H. unfold Image.find_sort. by rewrite H. Qed.

End list_endpoint.

Lemma sorted_documents_empty (rank : string → Z) : sorted_documents rank ∅ = [].
Proof. unfold sorted_documents. by rewrite map_to_list_empty. Qed.

(** C2: whatever the Metadata Store holds, the empty collection included,
    [GET /api/images] answers 200 with all the stored documents, each exactly
    once, newest [uploadDate] first, and each with a [url] equal to its
    [path]; the world is left as it was. *)
Theorem get_images_all_newest_first (env : Env) (w : World) :
  db_rejects env Find = None →
  ∃ found : list Image.t,
    get_images env w =
      (res 200 (json_images
                  (List.map (fun image => (image, Image.path (Image.data image))) found)),
       w)
    ∧ StronglySorted Image.newer_first found
    ∧ NoDup found
    ∧ (∀ image, image ∈ found ↔ images w !! Image._id image = Some (Image.data image))
    ∧ (images w = ∅ → found = []).
Proof.
  intros Hdb. exists (sorted_documents (tie_rank env) (images w)).
  split; [|split; [|split; [|split]]].
  - unfold get_images. by rewrite (find_sort_resolves _ _ Hdb).
  - apply sorted_documents_sorted.
  - apply sorted_documents_NoDup.
  - apply sorted_documents_elem.
  - intros ->. apply sorted_documents_empty.
Qed.

Lemma get_images_all_newest_first_witness :
  ∃ found : list Image.t,
    get_images quiet_env two_images =
      (res 200 (json_images
                  (List.map (fun image => (image, Image.path (Image.data image))) found)),
       two_images)
    ∧ StronglySorted Image.newer_first found
    ∧ NoDup found
    ∧ (∀ image, image ∈ found ↔
         images two_images !! Image._id image = Some (Image.data image))
    ∧ (images two_images = ∅ → found = []).
Proof. apply (get_images_all_newest_first quiet_env two_images). reflexivity. Defined.

Lemma get_images_keeps_store (env : Env) (w : World) :
  images (get_images env w).2 = images w.
Proof. unfold get_images. by destruct (Image.find_sort env (images w)). Qed.

(** C9, as stated, fails: with two documents of the same [uploadDate] the
    store may return them in one order for the first query and in the other
    order for the second, although nothing was written in between. *)
Lemma get_images_twice_ties_swapped :
  images (get_images ties_a_first twins).2 = images twins
  ∧ (get_images ties_b_first (get_images ties_a_first twins).2).1
    ≠ (get_images ties_a_first twins).1.
Proof. split; [reflexivity|]. vm_compute. discriminate. Qed.

(** C9, amended: two calls of the list endpoint with no change of the
    Metadata Store in between leave the store as it was and answer with the
    same documents, each time ordered by [uploadDate] descending; when no
    two stored documents have the same [uploadDate], the two answers are
    identical. *)
Theorem get_images_twice_same_documents (env1 env2 : Env) (w w' : World) :
  db_rejects env1 Find = None →
  db_rejects env2 Find = None →
  images w' = images (get_images env1 w).2 →
  images (get_images env2 w').2 = images w
  ∧ (∃ found1 found2 : list Image.t,
       (get_images env1 w).1
         = res 200 (json_images
                      (List.map (fun image => (image, Image.path (Image.data image)))
                         found1))
       ∧ (get_images env2 w').1
         = res 200 (json_images
                      (List.map (fun image => (image, Image.path (Image.data image)))
                         found2))
       ∧ found1 ≡ₚ found2
       ∧ StronglySorted Image.newer_first found1
       ∧ StronglySorted Image.newer_first found2)
  ∧ ((∀ i j d d', images w !! i = Some d → images w !! j = Some d' →
                  Image.uploadDate d = Image.uploadDate d' → i = j) →
     (get_images env2 w').1 = (get_images env1 w).1).
Proof.
  intros H1 H2 Hsame. rewrite get_images_keeps_store in Hsame.
  split; [by rewrite get_images_keeps_store, Hsame|].
  unfold get_images.
  rewrite (find_sort_resolves _ _ H1), (find_sort_resolves _ _ H2), Hsame.
  cbn [fst].
  assert (sorted_documents (tie_rank env1) (images w)
          ≡ₚ sorted_documents (tie_rank env2) (images w)) as Hperm.
  { by rewrite !sorted_documents_Permutation. }
  split.
  - exists (sorted_documents (tie_rank env1) (images w)),
           (sorted_documents (tie_rank env2) (images w)).
    split; [done|]. split; [done|]. split; [done|].
    split; apply sorted_documents_sorted.
  - intros Hdistinct.
    assert (sorted_documents (tie_rank env2) (images w)
            = sorted_documents (tie_rank env1) (images w)) as ->; [|done].
    apply (StronglySorted_unique_strong Image.newer_first);
      [| apply sorted_documents_sorted | apply sorted_documents_sorted | done].
    intros [i1 d1] [i2 d2] Hin1 Hin2 Hle1 Hle2.
    apply sorted_documents_elem in Hin1, Hin2. simpl in Hin1, Hin2.
    unfold Image.newer_first in Hle1, Hle2. simpl in Hle1, Hle2.
    assert (i1 = i2) as -> by (apply (Hdistinct i1 i2 d1 d2); [done | done | lia]).
    congruence.
Qed.

Lemma two_images_lookup (i : string) (d : Image.fields) :
  images two_images !! i = Some d →
  (i = "65a000000000000000000001" ∧ d = sunset)
  ∨ (i = "65a000000000000000000002" ∧ d = holiday).
Proof.
  intros Hd.
  destruct (decide (i = "65a000000000000000000001")) as [->|Hne1].
  { left. split; [done|]. vm_compute in Hd. injection Hd as <-. reflexivity. }
  destruct (decide (i = "65a000000000000000000002")) as [->|Hne2].
  { right. split; [done|]. vm_compute in Hd. injection Hd as <-. reflexivity. }
  unfold two_images in Hd. simpl in Hd.
  rewrite lookup_insert_ne, lookup_insert_ne, lookup_empty in Hd by done.
  discriminate.
Qed.

Lemma get_images_twice_same_documents_witness :
  images (get_images ties_b_first (get_images ties_a_first two_images).2).2
    = images two_images
  ∧ (get_images ties_b_first (get_images ties_a_first two_images).2).1
    = (get_images ties_a_first two_images).1.
Proof.
  destruct (get_images_twice_same_documents ties_a_first ties_b_first two_images
              (get_images ties_a_first two_images).2)
    as (Hstore & _ & Hsame); [reflexivity | reflexivity | reflexivity |].
  split; [exact Hstore|]. apply Hsame.
  intros i j d d' Hi Hj Hdate.
  apply two_images_lookup in Hi as [[-> ->]|[-> ->]];
    apply two_images_lookup in Hj as [[-> ->]|[-> ->]];
    first [reflexivity | discriminate Hdate].
Defined.

(** ** Download and delete by id *)

Lemma findById_resolves (env : Env) (coll : gmap string Image.fields) (id : string) :
  db_rejects env (FindById id) = None →
  Image.findById env coll id = Ok (Image.doc id <$> coll !! id).
Proof. intros H. unfold Image.findById. by rewrite H. Qed.

Lemma findByIdAndDelete_resolves (env : Env) (coll : gmap string Image.fields)
    (id : string) :
  db_rejects env (FindByIdAndDelete id) = None →
  Image.findByIdAndDelete env coll id = Ok (delete id coll).
Proof. intros H. unfold Image.findByIdAndDelete. by rewrite H. Qed.

(** C6, as stated, fails: for an id that the store cannot cast to an
    identifier no document matches, the lookup is rejected, and the answer is
    500, not 404. *)
Lemma get_download_uncastable_id_500 :
  images two_images !! "abc" = None
  ∧ get_download cast_fails "abc" two_images
    = (res 500 (json_error "Failed to download image"),
       console_error "Download error:"
         (plain_error "Cast to ObjectId failed for value abc at path _id")
         two_images).
Proof. split; reflexivity. Qed.

(** C6, amended: when the Metadata Store answers the lookup, a request for
    the id of a stored document is redirected to exactly its [path], and a
    request for an id no document has is answered 404 with the body
    [{ error: "Image not found" }]; when the store rejects the lookup (an id
    it cannot cast, a lost connection), the answer is 500 with
    [{ error: "Failed to download image" }].  The world is left as it was,
    but for the log line of the rejection. *)
Theorem get_download_redirects_or_404 (env : Env) (id : string) (w : World) :
  (db_rejects env (FindById id) = None →
   (∀ d, images w !! id = Some d →
         get_download env id w = (res 302 (redirect (Image.path d)), w))
   ∧ (images w !! id = None →
      get_download env id w = (res 404 (json_error "Image not found"), w)))
  ∧ (∀ error, db_rejects env (FindById id) = Some error →
       get_download env id w
         = (res 500 (json_error "Failed to download image"),
            console_error "Download error:" error w)).
Proof.
  split.
  - intros Hdb. unfold get_download. rewrite (findById_resolves _ _ _ Hdb).
    split.
    + intros d ->. reflexivity.
    + intros ->. reflexivity.
  - intros error Hdb. unfold get_download, Image.findById. by rewrite Hdb.
Qed.

Lemma get_download_redirects_or_404_witness :
  get_download quiet_env "65a000000000000000000001" two_images
    = (res 302 (redirect (Image.path sunset)), two_images)
  ∧ get_download quiet_env "65a0000000000000000000ff" two_images
    = (res 404 (json_error "Image not found"), two_images)
  ∧ (get_download cast_fails "abc" two_images).1
    = res 500 (json_error "Failed to download image").
Proof.
  destruct (get_download_redirects_or_404 quiet_env "65a000000000000000000001"
              two_images) as [Hfound _].
  destruct (get_download_redirects_or_404 quiet_env "65a0000000000000000000ff"
              two_images) as [Hnone _].
  destruct (get_download_redirects_or_404 cast_fails "abc" two_images) as [_ Hrej].
  split; [|split].
  - apply Hfound; reflexivity.
  - apply Hnone; reflexivity.
  - rewrite (Hrej (plain_error "Cast to ObjectId failed for value abc at path _id"));
      reflexivity.
Defined.

(** C7, as stated, fails: [DELETE /api/images/abc] matches no document, yet
    the lookup is rejected and the answer is 500, not 404. *)
Lemma delete_uncastable_id_500 :
  images two_images !! "abc" = None
  ∧ delete_image cast_fails "abc" two_images
    = (res 500 (json_error "Failed to delete image"),
       console_error "Delete error:"
         (plain_error "Cast to ObjectId failed for value abc at path _id")
         two_images).
Proof. split; reflexivity. Qed.

(** C7, amended: [DELETE /api/images/:id] for an id no document has is
    answered 404 when the Metadata Store answers the lookup, and 500 with
    [{ error: "Failed to delete image" }] when the store rejects it (an id
    it cannot cast, a lost connection); in both cases the Metadata Store is
    left as it was and Cloudinary is not called. *)
Theorem delete_unknown_id_404 (env : Env) (id : string) (w : World) :
  images w !! id = None →
  (db_rejects env (FindById id) = None →
   delete_image env id w = (res 404 (json_error "Image not found"), w))
  ∧ (∀ error, db_rejects env (FindById id) = Some error →
       delete_image env id w
         = (res 500 (json_error "Failed to delete image"),
            console_error "Delete error:" error w))
  ∧ images (delete_image env id w).2 = images w
  ∧ cloudinary (delete_image env id w).2 = cloudinary w.
Proof.
  intros Hnone. unfold delete_image, Image.findById.
  destruct (db_rejects env (FindById id)) as [e|]; rewrite ?Hnone; simpl.
  - split; [done|]. split; [|done]. by intros error [= <-].
  - split; [done|]. split; [|done]. done.
Qed.

Lemma delete_unknown_id_404_witness :
  delete_image quiet_env "65a0000000000000000000ff" two_images
    = (res 404 (json_error "Image not found"), two_images)
  ∧ (delete_image cast_fails "abc" two_images).1
    = res 500 (json_error "Failed to delete image")
  ∧ images (delete_image cast_fails "abc" two_images).2 = images two_images
  ∧ cloudinary (delete_image cast_fails "abc" two_images).2 = cloudinary two_images.
Proof.
  destruct (delete_unknown_id_404 quiet_env "65a0000000000000000000ff" two_images)
    as (H404 & _); [reflexivity|].
  destruct (delete_unknown_id_404 cast_fails "abc" two_images)
    as (_ & H500 & Hstore & Hcalls); [reflexivity|].
  split; [by apply H404|]. split; [|by split].
  rewrite (H500 (plain_error "Cast to ObjectId failed for value abc at path _id"));
    reflexivity.
Defined.

Lemma destroy_logged_images (env : Env) (publicId : option string) (w : World) :
  images (destroy_logged env publicId w) = images w.
Proof.
  unfold destroy_logged. destruct publicId as [h|]; [|done].
  destruct (Js.truthy (Some h)); [|done].
  by destruct (destroy_rejects env h).
Qed.

(** What the best-effort deletion leaves behind: one [destroy] call, and
    one log line when Cloudinary rejects it. *)
Lemma destroy_logged_trace (env : Env) (handle : string) (w : World) :
  handle ≠ "" →
  cloudinary (destroy_logged env (Some handle) w) = (cloudinary w ++ [destroy handle])%list
  ∧ console (destroy_logged env (Some handle) w) =
      (console w ++
       match destroy_rejects env handle with
       | Some cloudinaryError =>
           [("Cloudinary deletion error:", message cloudinaryError)]
       | None => []
       end)%list.
Proof.
  intros Hne. unfold destroy_logged, Js.truthy.
  destruct (String.eqb_spec handle ""); [done|]. simpl.
  destruct (destroy_rejects env handle); simpl; [done|].
  by rewrite app_nil_r.
Qed.

(** C1: [DELETE /api/images/:id] for the id of a stored document removes
    that document (and no other) from the Metadata Store and answers 200
    with [{ message: "Image deleted successfully" }], whatever Cloudinary
    answers to the deletion; a rejected Cloudinary deletion only adds a line
    to the log. *)
Theorem delete_existing_any_cloudinary_outcome
    (env : Env) (id : string) (d : Image.fields) (w : World) :
  images w !! id = Some d →
  db_rejects env (FindById id) = None →
  db_rejects env (FindByIdAndDelete id) = None →
  (delete_image env id w).1 = res 200 (json_message "Image deleted successfully")
  ∧ images (delete_image env id w).2 = delete id (images w)
  ∧ images (delete_image env id w).2 !! id = None
  ∧ (∀ other, other ≠ id →
       images (delete_image env id w).2 !! other = images w !! other)
  ∧ (∀ handle, derive_publicId (Image.doc id d) = Some handle → handle ≠ "" →
       cloudinary (delete_image env id w).2 = (cloudinary w ++ [destroy handle])%list
       ∧ console (delete_image env id w).2 =
           (console w ++
            match destroy_rejects env handle with
            | Some cloudinaryError =>
                [("Cloudinary deletion error:", message cloudinaryError)]
            | None => []
            end)%list).
Proof.
  intros Hd Hfind Hdel.
  assert (delete_image env id w =
            (res 200 (json_message "Image deleted successfully"),
             set_images (delete id (images w))
               (destroy_logged env (derive_publicId (Image.doc id d)) w))) as E.
  { unfold delete_image. rewrite (findById_resolves _ _ _ Hfind), Hd. simpl.
    rewrite (findByIdAndDelete_resolves _ _ _ Hdel).
    by rewrite destroy_logged_images. }
  rewrite E. simpl.
  split; [done|]. split; [done|]. split; [apply lookup_delete_eq|]. split.
  - intros other Hne. by apply lookup_delete_ne.
  - intros handle -> Hne. by apply destroy_logged_trace.
Qed.

Lemma delete_existing_any_cloudinary_outcome_witness :
  (delete_image cloudinary_down "65a000000000000000000001" two_images).1
    = res 200 (json_message "Image deleted successfully")
  ∧ images (delete_image cloudinary_down "65a000000000000000000001" two_images).2
    !! "65a000000000000000000001" = None
  ∧ console (delete_image cloudinary_down "65a000000000000000000001" two_images).2
    = [("Cloudinary deletion error:", "Request Timeout")].
Proof.
  destruct (delete_existing_any_cloudinary_outcome cloudinary_down
              "65a000000000000000000001" sunset two_images)
    as (Hres & _ & Hgone & _ & Hlog); [reflexivity | reflexivity | reflexivity |].
  destruct (Hlog "uploads/1690000000000-7") as [_ Hconsole];
    [reflexivity | discriminate |].
  exact (conj Hres (conj Hgone Hconsole)).
Defined.

(** ** Upload of an empty batch *)

(** C10: a multipart upload that carries no file at all is answered 201
    with the success message and an empty list of records, and changes
    nothing. *)
Theorem upload_empty_batch_201 (env : Env) (w : World) :
  post_api_upload env (multipart []) w =
    (res 201 (json_uploaded "Images uploaded successfully" []), w)
  ∧ post_upload env (Some []) w =
    (res 201 (json_uploaded "Images uploaded successfully" []), w).
Proof. split; reflexivity. Qed.

(** ** The client's [deleteImage] *)

(** With nothing happening between the click and a successful answer,
    [deleteImage id] leaves exactly the images whose [_id] differs from
    [id], in their order; the detail view is closed when it showed an image
    with that [_id] and is left alone otherwise. *)
Theorem deleteImage_success (id : string) (st : Client.State) :
  Client.images (Client.deleteImage (Client.response true) id st) =
    List.filter (fun img => negb (String.eqb (Client._id img) id)) (Client.images st)
  ∧ (∀ img, img ∈ Client.images (Client.deleteImage (Client.response true) id st) ↔
            img ∈ Client.images st ∧ Client._id img ≠ id)
  ∧ Client.selectedImage (Client.deleteImage (Client.response true) id st) =
      match Client.selectedImage st with
      | Some selected =>
          if decide (Client._id selected = id) then None else Some selected
      | None => None
      end.
Proof.
  assert (Client.images (Client.deleteImage (Client.response true) id st) =
    List.filter (fun img => negb (String.eqb (Client._id img) id)) (Client.images st)) as E.
  { unfold Client.deleteImage, Client.deleteImage_settle, Client.deleteImage_click.
    simpl. destruct (Client.selectedImage st) as [sel|]; [|done].
    by destruct (String.eqb (Client._id sel) id). }
  split; [exact E|split].
  - intros img. rewrite E, !list_elem_of_In, filter_In.
    rewrite negb_true_iff, String.eqb_neq. done.
  - unfold Client.deleteImage, Client.deleteImage_settle, Client.deleteImage_click.
    simpl. destruct (Client.selectedImage st) as [sel|] eqn:Hsel.
    + destruct (String.eqb_spec (Client._id sel) id); case_decide; try done.
    + done.
Qed.

(** What the answer to a carried-out delete does to the state it finds: the
    images are filtered by [_id], and the detail view is closed exactly when
    the view of the click showed [id], whatever is shown now. *)
Lemma deleteImage_settle_success
    (id : string) (selected : option Client.image) (st : Client.State) :
  Client.images (Client.deleteImage_settle (Client.response true) id selected st)
    = List.filter (fun img => negb (String.eqb (Client._id img) id)) (Client.images st)
  ∧ Client.selectedImage (Client.deleteImage_settle (Client.response true) id selected st)
    = match selected with
      | Some shown =>
          if decide (Client._id shown = id) then None else Client.selectedImage st
      | None => Client.selectedImage st
      end.
Proof.
  unfold Client.deleteImage_settle. destruct selected as [shown|]; [|done].
  destruct (String.eqb_spec (Client._id shown) id); case_decide; done.
Qed.

(** C8, at a state the claim covers: the delete of an image is clicked
    while no detail view is open, the detail view of that image is opened
    before the request is answered, and the server answers ok.  The image
    leaves the list, and the detail view that shows it stays open.  The
    other way round, a detail view of the deleted image that was open at the
    click closes the view of another image opened in the meantime. *)
Theorem deleteImage_misses_view_opened_meanwhile :
  (Client.selectedImage gallery_of_two = None
   ∧ Client.images
       (Client.deleteImage_settle (Client.response true) "65a000000000000000000001"
          (Client.selectedImage gallery_of_two)
          (Client.openModal sunset_image (Client.deleteImage_click gallery_of_two)))
     = [holiday_image]
   ∧ Client.selectedImage
       (Client.deleteImage_settle (Client.response true) "65a000000000000000000001"
          (Client.selectedImage gallery_of_two)
          (Client.openModal sunset_image (Client.deleteImage_click gallery_of_two)))
     = Some sunset_image)
  ∧ Client.selectedImage
      (Client.deleteImage_settle (Client.response true) "65a000000000000000000001"
         (Client.selectedImage (Client.openModal sunset_image gallery_of_two))
         (Client.openModal holiday_image
            (Client.deleteImage_click (Client.openModal sunset_image gallery_of_two))))
    = None.
Proof. repeat split. Qed.

(** ** The deletion handle *)

Lemma split_not_nil (sep : ascii) (s : string) : Js.split sep s ≠ [].
Proof.
  destruct s as [|c s]; simpl; [done|].
  destruct (Ascii.eqb c sep); [done|]. by destruct (Js.split sep s).
Qed.

Lemma includes_dot (s : string) : Js.includes "." s = false ↔ dots s = 0%nat.
Proof.
  induction s as [|c s IH]; [done|].
  cbn [Js.includes Js.startsWith dots]. rewrite andb_true_r.
  rewrite (Ascii.eqb_sym "." c).
  destruct (Ascii.eqb c "."); simpl; [split; [done | lia] | exact IH].
Qed.

(** The text before the first dot is the name without its extension when
    the name has at most one dot. *)
Lemma first_part_is_stripped (name : string) :
  (dots name ≤ 1)%nat →
  List.hd "" (Js.split "." name) = strip_extension name.
Proof.
  induction name as [|c s IH]; simpl; [done|].
  destruct (Ascii.eqb_spec c ".") as [->|Hne]; simpl.
  - intros Hd. assert (dots s = 0%nat) as Hz by lia.
    apply includes_dot in Hz. by rewrite Hz.
  - intros Hd. pose proof (split_not_nil "." s) as Hnil.
    destruct (Js.split "." s) as [|x xs] eqn:E; [done|].
    simpl in *. by rewrite <- IH.
Qed.

(** A stored, non-empty [public_id] is the handle. *)
Lemma derive_publicId_stored (image : Image.t) (handle : string) :
  Image.public_id (Image.data image) = Some handle →
  handle ≠ "" →
  derive_publicId image = Some handle.
Proof.
  intros E Hne. unfold derive_publicId. rewrite E. simpl.
  by destruct (String.eqb_spec handle "").
Qed.

(** Without a [public_id], the handle is the last segment of [path] without
    its extension as long as that segment has at most one dot. *)
Lemma derive_publicId_from_path (image : Image.t) (p : string) :
  Image.public_id (Image.data image) = None →
  Image.path (Image.data image) = Some p →
  p ≠ "" →
  (dots (last_segment p) ≤ 1)%nat →
  derive_publicId image = Some (strip_extension (last_segment p)).
Proof.
  intros E Hp Hne Hd. unfold derive_publicId. rewrite E, Hp. simpl.
  destruct (String.eqb_spec p ""); [done|]. simpl.
  by rewrite first_part_is_stripped.
Qed.

(** C5, at a document without [public_id] whose file name has two dots: the
    handle sent to Cloudinary is the text before the first dot,
    ["holiday"], while the last segment of [path] without its extension is
    ["holiday.2023"]. *)
Theorem derive_publicId_cuts_at_first_dot :
  Image.public_id holiday = None
  ∧ Image.path holiday =
      Some "https://res.cloudinary.com/demo/image/upload/v1/holiday.2023.jpg"
  ∧ derive_publicId (Image.doc "65a000000000000000000002" holiday) = Some "holiday"
  ∧ strip_extension
      (last_segment "https://res.cloudinary.com/demo/image/upload/v1/holiday.2023.jpg")
    = "holiday.2023"
  ∧ cloudinary (delete_image quiet_env "65a000000000000000000002" two_images).2
    = [destroy "holiday"].
Proof. repeat split; vm_compute; reflexivity. Qed.

(** ** The upload middleware *)

Lemma fileFilter_cases (file : File.t) :
  fileFilter file = Ok true ∨ fileFilter file = Throw only_images.
Proof. unfold fileFilter. destruct (_ && _); auto. Qed.

Lemma accepted_true (file : File.t) :
  accepted file = true ↔ fileFilter file = Ok true.
Proof.
  unfold accepted. destruct (fileFilter_cases file) as [E|E]; rewrite E; done.
Qed.

Lemma accepted_false (file : File.t) :
  accepted file = false ↔ fileFilter file = Throw only_images.
Proof.
  unfold accepted. destruct (fileFilter_cases file) as [E|E]; rewrite E; done.
Qed.

Lemma allowedTypes_test_extension (s : string) :
  In s image_extensions → allowedTypes_test s = true.
Proof. simpl. intros H. repeat (destruct H as [<-|H]; [reflexivity|]). done. Qed.

Lemma allowedTypes_test_mimetype (s : string) :
  In s image_mimetypes → allowedTypes_test s = true.
Proof. simpl. intros H. repeat (destruct H as [<-|H]; [reflexivity|]). done. Qed.

Section upload_middleware.
Variable env : Env.
Variable name : string.

(** The middleware touches neither the Metadata Store nor the log, and
    streams only files that passed the type check. *)
Lemma upload_parts_world (parts : list File.t) :
  ∀ (filesLeft : nat) (w : World),
    images (upload_parts env name filesLeft parts w).2 = images w
    ∧ console (upload_parts env name filesLeft parts w).2 = console w
    ∧ constructed (upload_parts env name filesLeft parts w).2 = constructed w
    ∧ ∃ calls,
        cloudinary (upload_parts env name filesLeft parts w).2
          = (cloudinary w ++ calls)%list
        ∧ Forall (λ c, ∃ f, c = upload_stream f ∧ accepted f = true) calls.
Proof.
  assert (∀ w : World, ∃ calls : list CloudinaryCall,
            cloudinary w = (cloudinary w ++ calls)%list
            ∧ Forall (λ c, ∃ f, c = upload_stream f ∧ accepted f = true) calls)
    as Hsame.
  { intros w. exists []. by rewrite app_nil_r. }
  induction parts as [|file rest IH]; intros filesLeft w; simpl.
  - auto.
  - destruct filesLeft as [|remaining]; simpl; [auto|].
    destruct (negb _); simpl; [auto|].
    destruct (fileFilter file) as [[|]|e] eqn:Hf; simpl; [| apply IH | auto].
    assert (∀ w' : World,
              images w' = images (called (upload_stream file) w) →
              console w' = console (called (upload_stream file) w) →
              constructed w' = constructed (called (upload_stream file) w) →
              (∃ calls, cloudinary w' =
                 (cloudinary (called (upload_stream file) w) ++ calls)%list
                 ∧ Forall (λ c, ∃ f, c = upload_stream f ∧ accepted f = true) calls) →
              images w' = images w ∧ console w' = console w
              ∧ constructed w' = constructed w
              ∧ ∃ calls, cloudinary w' = (cloudinary w ++ calls)%list
                  ∧ Forall (λ c, ∃ f, c = upload_stream f ∧ accepted f = true) calls)
      as Hstep.
    { intros w' Hi Hc Hn (calls & Hcalls & Hall). simpl in *.
      repeat split; [done..|].
      exists (upload_stream file :: calls). split.
      - by rewrite Hcalls, <- app_assoc.
      - constructor; [|done]. exists file. split; [done|]. by apply accepted_true. }
    destruct (exceeds_limit env file).
    { apply (Hstep (called (upload_stream file) w)); [done..|]. apply Hsame. }
    destruct (handleFile env file) as [i|e].
    2:{ apply (Hstep (called (upload_stream file) w)); [done..|]. apply Hsame. }
    specialize (IH remaining (called (upload_stream file) w)).
    destruct (upload_parts env name remaining rest (called (upload_stream file) w))
      as [[files|e] w2]; apply (Hstep w2); tauto.
Qed.

(** A file that fails the type check makes the middleware fail. *)
Lemma upload_parts_rejected (parts : list File.t) (file : File.t) :
  file ∈ parts → accepted file = false →
  ∀ (filesLeft : nat) (w : World),
    ∃ e, (upload_parts env name filesLeft parts w).1 = Throw e.
Proof.
  intros Hin Hrej. apply accepted_false in Hrej.
  induction Hin as [file rest | file other rest Hin IH]; intros filesLeft w; simpl.
  2: specialize (IH Hrej).
  - destruct filesLeft; simpl; [eauto|].
    destruct (negb _); simpl; [eauto|]. rewrite Hrej. eauto.
  - destruct filesLeft as [|remaining]; simpl; [eauto|].
    destruct (negb _); simpl; [eauto|].
    destruct (fileFilter other) as [[|]|e]; simpl; [| apply IH | eauto].
    destruct (exceeds_limit env other); simpl; [eauto|].
    destruct (handleFile env other); simpl; [|eauto].
    destruct (IH remaining (called (upload_stream other) w)) as [e He].
    destruct (upload_parts env name remaining rest _) as [[files|e'] w2];
      simpl in *; [done | eauto].
Qed.

(** When the first parts are all taken, the middleware goes on with the
    rest, with as many files less to take. *)
Lemma upload_parts_app (pre rest : list File.t) :
  ∀ (filesLeft : nat) (w w1 : World) (ups : list Uploaded),
    upload_parts env name filesLeft pre w = (Ok ups, w1) →
    (length pre ≤ filesLeft)%nat
    ∧ upload_parts env name filesLeft (pre ++ rest) w =
        match upload_parts env name (filesLeft - length pre) rest w1 with
        | (Ok files, w2) => (Ok (ups ++ files)%list, w2)
        | (Throw e, w2) => (Throw e, w2)
        end.
Proof.
  induction pre as [|file pre IH]; intros filesLeft w w1 ups; simpl.
  - intros [= <- <-]. split; [lia|]. rewrite Nat.sub_0_r.
    by destruct (upload_parts env name filesLeft rest w) as [[files|e] w2].
  - destruct filesLeft as [|remaining]; simpl; [done|].
    destruct (negb _); simpl; [done|].
    destruct (fileFilter file) as [[|]|e] eqn:Hf; simpl; [| | done].
    + destruct (exceeds_limit env file); simpl; [done|].
      destruct (handleFile env file) as [i|e]; simpl; [|done].
      destruct (upload_parts env name remaining pre (called (upload_stream file) w))
        as [[files|e] w2] eqn:E; simpl; [|done].
      intros [= <- <-].
      destruct (IH _ _ _ _ E) as [Hlen ->]. split; [lia|].
      by destruct (upload_parts env name (remaining - length pre) rest w2)
        as [[files'|e'] w3].
    + destruct (fileFilter_cases file) as [E|E]; rewrite E in Hf; done.
Qed.

End upload_middleware.

(** What the middleware does with the part that follows parts it has taken
    without error. *)
Lemma upload_parts_next (env : Env) (pre post : list File.t) (file : File.t)
    (w w1 : World) (ups : list Uploaded) :
  upload_parts env "images" 10 pre w = (Ok ups, w1) →
  (length pre < 10)%nat →
  File.fieldname file = "images" →
  images w1 = images w
  ∧ (accepted file = false →
     upload_parts env "images" 10 (pre ++ file :: post) w = (Throw only_images, w1))
  ∧ (accepted file = true → exceeds_limit env file = true →
     upload_parts env "images" 10 (pre ++ file :: post) w
       = (Throw LIMIT_FILE_SIZE, called (upload_stream file) w1)).
Proof.
  intros Hpre Hlen Hfield.
  destruct (upload_parts_app env "images" pre (file :: post) _ _ _ _ Hpre) as [_ ->].
  split.
  { pose proof (upload_parts_world env "images" pre 10 w) as Hw.
    rewrite Hpre in Hw. tauto. }
  destruct (10 - length pre)%nat as [|remaining] eqn:E; [lia|].
  cbn [upload_parts]. rewrite Hfield. cbn [String.eqb Ascii.eqb Bool.eqb negb].
  split.
  - intros Hrej. apply accepted_false in Hrej. by rewrite Hrej.
  - intros Hacc Hbig. apply accepted_true in Hacc. by rewrite Hacc, Hbig.
Qed.

(** ** The type check of uploads *)

(** The pattern is searched, not matched: an extension or a MIME type that
    merely contains one of the names passes as well. *)
Lemma fileFilter_accepts_by_substring :
  fileFilter {| File.fieldname := "images"; File.originalname := "cat.pngx";
                File.mimetype := "image/x-png"; File.size := 4096 |} = Ok true.
Proof. reflexivity. Qed.

Lemma in_allowed_set_cases (s : string) :
  in_allowed_set s = true → In s allowedTypes.
Proof.
  unfold in_allowed_set. intros H. apply existsb_exists in H as (alt & Hin & Heq).
  apply String.eqb_eq in Heq. by subst.
Qed.

(** The type check accepts every file the specification's words let in. *)
Lemma type_check_as_specified_accepted (file : File.t) :
  type_check_as_specified file = true → accepted file = true.
Proof.
  unfold type_check_as_specified, accepted, fileFilter, extension.
  intros H. apply andb_true_iff in H as [Hext Hmime].
  apply existsb_exists in Hmime as (m & Hm & Heq).
  apply String.eqb_eq in Heq. rewrite Heq.
  assert (allowedTypes_test m = true) as ->.
  { simpl in Hm. repeat (destruct Hm as [<-|Hm]; [reflexivity|]). done. }
  assert (allowedTypes_test (Js.toLowerCase (Js.extname (File.originalname file)))
          = true) as ->; [|done].
  apply in_allowed_set_cases in Hext.
  destruct (Js.extname (File.originalname file)) as [|c e]; simpl in Hext.
  { repeat (destruct Hext as [Hext|Hext]; [discriminate|]). done. }
  destruct (Ascii.eqb_spec c ".") as [->|Hne].
  - cbn [Js.toLowerCase].
    repeat (destruct Hext as [<-|Hext]; [reflexivity|]). done.
  - repeat (destruct Hext as [<-|Hext]; [reflexivity|]). done.
Qed.

(** C3, at a file the claim excludes: [cat.pngx] declared as [image/png] has
    the extension [pngx], which is none of the five names, and yet passes the
    type check, because the pattern is searched in the extension and not
    matched against it; the file is streamed to Cloudinary and a document is
    created for it. *)
Theorem fileFilter_accepts_pngx :
  type_check_as_specified cat_pngx = false
  ∧ Js.toLowerCase (extension (File.originalname cat_pngx)) = "pngx"
  ∧ fileFilter cat_pngx = Ok true
  ∧ status (post_api_upload quiet_env (multipart [cat_pngx]) empty_world).1 = 201
  ∧ cloudinary (post_api_upload quiet_env (multipart [cat_pngx]) empty_world).2
    = [upload_stream cat_pngx]
  ∧ Image.originalName
      <$> (images (post_api_upload quiet_env (multipart [cat_pngx]) empty_world).2
             !! "65a000000000000000000010")
    = Some "cat.pngx".
Proof. repeat split; vm_compute; reflexivity. Qed.

(** What the type check guarantees.  A file whose lowercased extension is
    one of [.jpeg], [.jpg], [.png], [.gif], [.webp] and whose declared MIME
    type is
    [image/] followed by one of the five names is accepted.  A file whose
    lowercased extension or whose declared MIME type contains none of the
    five names is rejected with ["Only image files are allowed!"]: a request
    that carries it creates no document and never streams that file to
    Cloudinary, and when it is the first part the middleware refuses, the
    answer is 500 with that message. *)
Theorem upload_type_check (file : File.t) :
  (In (Js.toLowerCase (Js.extname (File.originalname file))) image_extensions →
   In (File.mimetype file) image_mimetypes →
   accepted file = true)
  ∧ (allowedTypes_test (Js.toLowerCase (Js.extname (File.originalname file))) = false
     ∨ allowedTypes_test (File.mimetype file) = false →
     fileFilter file = Throw only_images
     ∧ (∀ (env : Env) (parts : list File.t) (w : World),
          file ∈ parts →
          images (post_api_upload env (multipart parts) w).2 = images w
          ∧ (∃ e, (post_api_upload env (multipart parts) w).1 = error_middleware e)
          ∧ ∃ calls,
              cloudinary (post_api_upload env (multipart parts) w).2
                = (cloudinary w ++ calls)%list
              ∧ upload_stream file ∉ calls)
     ∧ (∀ (env : Env) (pre post : list File.t) (w w1 : World) (ups : list Uploaded),
          upload_parts env "images" 10 pre w = (Ok ups, w1) →
          (length pre < 10)%nat →
          File.fieldname file = "images" →
          (post_api_upload env (multipart (pre ++ file :: post)) w).1
            = res 500 (json_error "Only image files are allowed!"))).
Proof.
  split.
  - intros Hext Hmime. unfold accepted, fileFilter.
    by rewrite (allowedTypes_test_extension _ Hext),
               (allowedTypes_test_mimetype _ Hmime).
  - intros Hnone.
    assert (fileFilter file = Throw only_images) as Hthrow.
    { unfold fileFilter. destruct Hnone as [-> | ->]; [|done].
      by rewrite andb_false_r. }
    assert (accepted file = false) as Hrej by by apply accepted_false.
    split; [exact Hthrow|]. split.
    + intros env parts w Hin. unfold post_api_upload, upload_array.
      destruct (upload_parts_rejected env "images" parts file Hin Hrej 10 w) as [e He].
      destruct (upload_parts_world env "images" parts 10 w)
        as (Hi & _ & _ & calls & Hcalls & Hall).
      destruct (upload_parts env "images" 10 parts w) as [[files|e'] w2];
        simpl in *; [done|].
      split; [done|]. split; [by exists e'|].
      exists calls. split; [done|].
      intros Hmem. rewrite Forall_forall in Hall.
      destruct (Hall _ Hmem) as (f & [= <-] & Hacc). congruence.
    + intros env pre post w w1 ups Hpre Hlen Hfield.
      destruct (upload_parts_next env pre post file w w1 ups Hpre Hlen Hfield)
        as (_ & Hnext & _).
      unfold post_api_upload, upload_array. by rewrite (Hnext Hrej).
Qed.

Lemma upload_type_check_witness :
  accepted cat_png = true
  ∧ images (post_api_upload quiet_env (multipart [cat_png; notes_txt]) two_images).2
    = images two_images
  ∧ (post_api_upload quiet_env (multipart [cat_png; notes_txt]) two_images).1
    = res 500 (json_error "Only image files are allowed!").
Proof.
  split; [|split].
  - apply (upload_type_check cat_png); simpl; auto.
  - destruct (upload_type_check notes_txt) as [_ Hrej].
    destruct Hrej as (_ & Hany & _); [left; reflexivity|].
    apply (Hany quiet_env [cat_png; notes_txt] two_images).
    apply list_elem_of_In. simpl. auto.
  - destruct (upload_type_check notes_txt) as [_ Hrej].
    destruct Hrej as (_ & _ & Hfirst); [left; reflexivity|].
    apply (Hfirst quiet_env [cat_png] [] two_images
             (called (upload_stream cat_png) two_images)
             [mkUploaded cat_png
                {| stored_path := "https://res.cloudinary.com/demo/image/upload/v1/uploads/1700000000000-42.png";
                   stored_size := 4096;
                   stored_filename := "uploads/1700000000000-42";
                   stored_public_id := None |}]);
      [reflexivity | simpl; lia | reflexivity].
Defined.

(** ** The size limit and the error middleware *)




(** * Further properties of the server *)

(** ** Uploads that reach the handler *)

Lemma error_middleware_status (error : Error) :
  error_middleware error = res 400 (json_error "File too large")
  ∨ error_middleware error = res 500 (json_error (message error)).
Proof.
  unfold error_middleware. destruct (multer_code error) as [code|]; [|auto].
  destruct (String.eqb code "LIMIT_FILE_SIZE"); auto.
Qed.

(** When the middleware lets a request through, every part was taken, in
    order: each is under the expected field, passed the type check, stayed
    within the size limit and was stored. *)
Lemma upload_parts_ok (env : Env) (name : string) (parts : list File.t) :
  ∀ (filesLeft : nat) (w w1 : World) (ups : list Uploaded),
    upload_parts env name filesLeft parts w = (Ok ups, w1) →
    List.map part ups = parts
    ∧ (length parts ≤ filesLeft)%nat
    ∧ Forall (λ file, File.fieldname file = name ∧ accepted file = true
                      ∧ exceeds_limit env file = false) parts
    ∧ Forall (λ up, handleFile env (part up) = Ok (info up)) ups
    ∧ cloudinary w1 = (cloudinary w ++ List.map upload_stream parts)%list.
Proof.
  induction parts as [|file rest IH]; intros filesLeft w w1 ups; simpl.
  - intros [= <- <-]. simpl. rewrite app_nil_r.
    repeat split; [lia | constructor | constructor].
  - destruct filesLeft as [|remaining]; [done|].
    destruct (String.eqb_spec (File.fieldname file) name) as [Hname|]; simpl; [|done].
    destruct (fileFilter file) as [[|]|e] eqn:Hf; [| | done].
    2:{ destruct (fileFilter_cases file) as [E|E]; rewrite E in Hf; done. }
    destruct (exceeds_limit env file) eqn:Hex; [done|].
    destruct (handleFile env file) as [i|e] eqn:Hh; [|done].
    destruct (upload_parts env name remaining rest (called (upload_stream file) w))
      as [[files|e] w2] eqn:E; [|done].
    intros [= <- <-].
    destruct (IH _ _ _ _ E) as (Hmap & Hlen & Hall & Hstored & Hcalls).
    simpl. rewrite Hmap. repeat split.
    + lia.
    + constructor; [|done]. repeat split; [done | by apply accepted_true | done].
    + constructor; done.
    + rewrite Hcalls. simpl. by rewrite <- app_assoc.
Qed.

Section saving.
Variable env : Env.

(** Saving documents leaves the Cloudinary trace and the log alone, starts
    one save per file, and never replaces or drops a stored document. *)
Lemma save_each_world (files : list Uploaded) :
  ∀ w : World,
    cloudinary (save_each env files w).2 = cloudinary w
    ∧ console (save_each env files w).2 = console w
    ∧ constructed (save_each env files w).2 = (constructed w + length files)%nat
    ∧ length (save_each env files w).1 = length files
    ∧ (∀ id d, images w !! id = Some d →
               images (save_each env files w).2 !! id = Some d).
Proof.
  induction files as [|file rest IH]; intros w; simpl.
  - repeat split; [lia | done].
  - unfold Image.save.
    destruct (db_rejects env (Save _)) as [e|].
    { specialize (IH (tick w)). destruct (save_each env rest (tick w)) as [rs w2].
      simpl in *. destruct IH as (? & ? & ? & ? & ?).
      repeat split; [done | done | lia | lia | done]. }
    simpl. destruct (images w !! ObjectId env (constructed w)) as [old|] eqn:Hold.
    { specialize (IH (tick w)). destruct (save_each env rest (tick w)) as [rs w2].
      simpl in *. destruct IH as (? & ? & ? & ? & ?).
      repeat split; [done | done | lia | lia | done]. }
    match goal with
    | |- context [save_each env rest ?w1] =>
        specialize (IH w1); destruct (save_each env rest w1) as [rs w2]
    end.
    simpl in *. destruct IH as (? & ? & ? & ? & Hkeep).
    repeat split; [done | done | lia | lia |].
    intros id d Hd. apply Hkeep.
    rewrite lookup_insert_ne; [done|]. intros <-. congruence.
Qed.

(** Every save that resolved is in the collection at the end, whatever
    happened to the other saves. *)
Lemma save_each_saved (files : list Uploaded) :
  ∀ (w : World) (image : Image.t),
    In (Ok image) (save_each env files w).1 →
    images (save_each env files w).2 !! Image._id image = Some (Image.data image).
Proof.
  induction files as [|file rest IH]; intros w image; simpl; [done|].
  unfold Image.save.
  destruct (db_rejects env (Save _)) as [e|].
  { specialize (IH (tick w) image). destruct (save_each env rest (tick w)) as [rs w2].
    simpl in *. intros [H|H]; [done | by apply IH]. }
  simpl. destruct (images w !! ObjectId env (constructed w)) as [old|] eqn:Hold.
  { specialize (IH (tick w) image). destruct (save_each env rest (tick w)) as [rs w2].
    simpl in *. intros [H|H]; [done | by apply IH]. }
  match goal with
  | |- context [save_each env rest ?w1] =>
      pose proof (save_each_world rest w1) as Hw;
      specialize (IH w1 image); destruct (save_each env rest w1) as [rs w2]
  end.
  simpl in *. intros [[= <-]|H]; [|by apply IH].
  destruct Hw as (_ & _ & _ & _ & Hkeep). apply Hkeep. simpl.
  apply lookup_insert_eq.
Qed.

(** The documents are built from the files, one for one and in order. *)
Lemma save_each_fields (files : list Uploaded) :
  ∀ w : World,
    Forall2 (λ r file, ∀ image, r = Ok image →
               Image.originalName (Image.data image) = File.originalname (part file)
               ∧ Image.mimetype (Image.data image) = File.mimetype (part file)
               ∧ Image.size (Image.data image) = stored_size (info file)
               ∧ Image.path (Image.data image) = Some (stored_path (info file))
               ∧ Image.public_id (Image.data image) = stored_public_id (info file))
      (save_each env files w).1 files.
Proof.
  induction files as [|file rest IH]; intros w; simpl; [constructor|].
  destruct (Image.save env _ _) as [coll|e].
  - match goal with
    | |- context [save_each env rest ?w1] =>
        specialize (IH w1); destruct (save_each env rest w1) as [rs w2]
    end.
    simpl in *. constructor; [|done]. by intros image [= <-].
  - specialize (IH (tick w)). destruct (save_each env rest (tick w)) as [rs w2].
    simpl in *. constructor; [|done]. done.
Qed.

End saving.

Lemma Promise_all_resolved {A} (ps : list (Result A)) (l : list A) :
  Promise_all ps = Ok l → ps = List.map Ok l.
Proof.
  revert l. induction ps as [|[a|e] ps IH]; intros l; simpl.
  - by intros [= <-].
  - destruct (Promise_all ps) as [l'|e]; [|done].
    intros [= <-]. simpl. by rewrite (IH l').
  - done.
Qed.

Lemma post_upload_status (env : Env) (files : option (list Uploaded)) (w : World) :
  status (post_upload env files w).1 = 201 ∨ status (post_upload env files w).1 = 500.
Proof.
  unfold post_upload. destruct files as [files|]; [|auto].
  destruct (save_each env files w) as [rs w1].
  destruct (Promise_all rs); auto.
Qed.

Lemma Forall2_resolved {A B} (P : A → B → Prop) (saved : list A) (ups : list B) :
  Forall2 (λ (r : Result A) up, ∀ a, r = Ok a → P a up) (List.map Ok saved) ups →
  Forall2 P saved ups.
Proof.
  revert ups. induction saved as [|a saved IH]; intros ups H; simpl in H.
  - inversion H. constructor.
  - inversion H as [|? up ? ups' Hhd Htl]; subst. constructor; [by apply Hhd | by apply IH].
Qed.

Lemma Forall2_parts {A} (P : A → Uploaded → Prop) (Q : A → File.t → Prop)
    (R : File.t → Prop) (saved : list A) (ups : list Uploaded) :
  (∀ a up, P a up → R (part up) → Q a (part up)) →
  Forall2 P saved ups →
  Forall R (List.map part ups) →
  Forall2 Q saved (List.map part ups).
Proof.
  intros HPQ H. induction H as [|a up saved ups Hhd Htl IH]; simpl; intros HR.
  - constructor.
  - inversion HR; subst. constructor; [by apply HPQ | by apply IH].
Qed.

Lemma within_limit (env : Env) (file : File.t) :
  exceeds_limit env file = false → File.size file ≤ 10485760.
Proof.
  unfold exceeds_limit, fileSize. intros H.
  apply orb_false_iff in H as [H _]. apply Z.ltb_ge in H. lia.
Qed.

(** What a 201 answer of the upload route tells about the request and the
    world it leaves. *)
Lemma upload_201_inv (env : Env) (parts : list File.t) (w : World) :
  status (post_api_upload env (multipart parts) w).1 = 201 →
  ∃ savedImages : list Image.t,
    (post_api_upload env (multipart parts) w).1
      = res 201 (json_uploaded "Images uploaded successfully" savedImages)
    ∧ (length parts ≤ 10)%nat
    ∧ Forall2 (λ image file,
                 Image.originalName (Image.data image) = File.originalname file
                 ∧ Image.mimetype (Image.data image) = File.mimetype file
                 ∧ File.fieldname file = "images"
                 ∧ accepted file = true
                 ∧ File.size file ≤ 10485760)
        savedImages parts
    ∧ (∀ image, In image savedImages →
         images (post_api_upload env (multipart parts) w).2 !! Image._id image
           = Some (Image.data image))
    ∧ cloudinary (post_api_upload env (multipart parts) w).2
        = (cloudinary w ++ List.map upload_stream parts)%list.
Proof.
  unfold post_api_upload, upload_array.
  destruct (upload_parts env "images" 10 parts w) as [[ups|e] w1] eqn:Hup.
  2:{ simpl. destruct (error_middleware_status e) as [-> | ->]; simpl; lia. }
  destruct (upload_parts_ok _ _ _ _ _ _ _ Hup) as (Hmap & Hlen & Hall & _ & Hcalls).
  unfold post_upload.
  pose proof (save_each_world env ups w1) as (Hc & _ & _ & _ & _).
  pose proof (save_each_saved env ups w1) as Hsaved.
  pose proof (save_each_fields env ups w1) as Hfields.
  destruct (save_each env ups w1) as [rs w2]. simpl in Hc, Hsaved, Hfields.
  destruct (Promise_all rs) as [savedImages|e] eqn:Hall_ok; simpl; [intros _ | lia].
  apply Promise_all_resolved in Hall_ok. subst rs.
  exists savedImages. split; [done|]. split; [done|]. split; [|split].
  - rewrite <- Hmap. rewrite <- Hmap in Hall.
    apply Forall2_resolved in Hfields.
    eapply Forall2_parts; [| exact Hfields | exact Hall].
    intros image up (Hn & Hm & _) (Hf & Ha & He). simpl in *.
    repeat split; [done.. |]. by apply (within_limit env).
  - intros image Hin. apply Hsaved. apply in_map_iff. by exists image.
  - by rewrite Hc, Hcalls.
Qed.

(** X1: when [POST /api/upload] answers 201, the request had at most ten
    parts, all under the field [images], all accepted by the type check and
    none larger than the limit; the answer lists one document per part, in
    the order of the parts, with the part's original name and MIME type;
    every listed document is stored, and every part was streamed to
    Cloudinary once, in order. *)
Theorem upload_201_one_record_per_file (env : Env) (parts : list File.t) (w : World) :
  status (post_api_upload env (multipart parts) w).1 = 201 →
  ∃ savedImages : list Image.t,
    (post_api_upload env (multipart parts) w).1
      = res 201 (json_uploaded "Images uploaded successfully" savedImages)
    ∧ (length parts ≤ 10)%nat
    ∧ Forall2 (λ image file,
                 Image.originalName (Image.data image) = File.originalname file
                 ∧ Image.mimetype (Image.data image) = File.mimetype file
                 ∧ File.fieldname file = "images"
                 ∧ accepted file = true
                 ∧ File.size file ≤ 10485760)
        savedImages parts
    ∧ (∀ image, In image savedImages →
         images (post_api_upload env (multipart parts) w).2 !! Image._id image
           = Some (Image.data image))
    ∧ cloudinary (post_api_upload env (multipart parts) w).2
        = (cloudinary w ++ List.map upload_stream parts)%list.
Proof. apply upload_201_inv. Qed.

Lemma upload_201_one_record_per_file_witness :
  ∃ savedImages : list Image.t,
    (post_api_upload quiet_env (multipart [cat_png; dog_jpg]) two_images).1
      = res 201 (json_uploaded "Images uploaded successfully" savedImages)
    ∧ (length [cat_png; dog_jpg] ≤ 10)%nat
    ∧ Forall2 (λ image file,
                 Image.originalName (Image.data image) = File.originalname file
                 ∧ Image.mimetype (Image.data image) = File.mimetype file
                 ∧ File.fieldname file = "images"
                 ∧ accepted file = true
                 ∧ File.size file ≤ 10485760)
        savedImages [cat_png; dog_jpg]
    ∧ (∀ image, In image savedImages →
         images (post_api_upload quiet_env (multipart [cat_png; dog_jpg]) two_images).2
           !! Image._id image = Some (Image.data image))
    ∧ cloudinary (post_api_upload quiet_env (multipart [cat_png; dog_jpg]) two_images).2
        = (cloudinary two_images ++ List.map upload_stream [cat_png; dog_jpg])%list.
Proof.
  apply (upload_201_one_record_per_file quiet_env [cat_png; dog_jpg] two_images).
  reflexivity.
Defined.

Lemma post_api_upload_keeps (env : Env) (b : RequestBody) (w : World)
    (id : string) (d : Image.fields) :
  images w !! id = Some d →
  images (post_api_upload env b w).2 !! id = Some d.
Proof.
  intros Hd. unfold post_api_upload, upload_array.
  destruct b as [parts|]; simpl.
  - pose proof (upload_parts_world env "images" parts 10 w) as (Hi & _).
    destruct (upload_parts env "images" 10 parts w) as [[ups|e] w1]; simpl in *.
    + unfold post_upload.
      pose proof (save_each_world env ups w1) as (_ & _ & _ & _ & Hkeep).
      destruct (save_each env ups w1) as [rs w2]. simpl in Hkeep.
      destruct (Promise_all rs); simpl; apply Hkeep; by rewrite Hi.
    + by rewrite Hi.
  - done.
Qed.

(** X2: whatever the request and whatever the services answer,
    [POST /api/upload] neither removes nor changes a document that was
    stored before. *)
Theorem upload_keeps_stored_documents
    (env : Env) (b : RequestBody) (w : World) (id : string) (d : Image.fields) :
  images w !! id = Some d →
  images (post_api_upload env b w).2 !! id = Some d.
Proof. apply post_api_upload_keeps. Qed.



(** X4: a request with more than ten file parts, or with a file part under
    a field other than [images], is refused by the upload middleware and
    never reaches the handler: the middleware ends with an error, the answer
    is what the error middleware makes of that error, no document is
    constructed or stored, and nothing is logged. *)
Theorem upload_beyond_the_form_is_refused (env : Env) (parts : list File.t) (w : World) :
  (10 < length parts)%nat ∨ (∃ file, In file parts ∧ File.fieldname file ≠ "images") →
  ∃ error,
    (upload_array env "images" 10 (multipart parts) w).1 = Throw error
    ∧ (post_api_upload env (multipart parts) w).1 = error_middleware error
    ∧ status (post_api_upload env (multipart parts) w).1 ≠ 201
    ∧ images (post_api_upload env (multipart parts) w).2 = images w
    ∧ console (post_api_upload env (multipart parts) w).2 = console w
    ∧ constructed (post_api_upload env (multipart parts) w).2 = constructed w.
Proof.
  intros Hbad. unfold post_api_upload, upload_array.
  pose proof (upload_parts_world env "images" parts 10 w) as (Hi & Hc & Hn & _).
  destruct (upload_parts env "images" 10 parts w) as [[ups|e] w1] eqn:Hup.
  - exfalso.
    destruct (upload_parts_ok _ _ _ _ _ _ _ Hup) as (_ & Hlen & Hall & _).
    destruct Hbad as [Hmany | (file & Hin & Hfield)]; [lia|].
    rewrite Forall_forall in Hall. apply list_elem_of_In in Hin.
    by destruct (Hall _ Hin) as (Hname & _).
  - cbn [fst snd] in *. exists e. split; [done|]. split; [done|].
    split; [|done].
    destruct (error_middleware_status e) as [-> | ->]; simpl; lia.
Qed.

Lemma upload_beyond_the_form_is_refused_witness :
  ∃ error,
    (upload_array quiet_env "images" 10 (multipart [cat_png; avatar_png]) two_images).1
      = Throw error
    ∧ (post_api_upload quiet_env (multipart [cat_png; avatar_png]) two_images).1
      = error_middleware error
    ∧ status (post_api_upload quiet_env (multipart [cat_png; avatar_png]) two_images).1
      ≠ 201
    ∧ images (post_api_upload quiet_env (multipart [cat_png; avatar_png]) two_images).2
      = images two_images
    ∧ console (post_api_upload quiet_env (multipart [cat_png; avatar_png]) two_images).2
      = console two_images
    ∧ constructed
        (post_api_upload quiet_env (multipart [cat_png; avatar_png]) two_images).2
      = constructed two_images.
Proof.
  apply (upload_beyond_the_form_is_refused quiet_env [cat_png; avatar_png] two_images).
  right. exists avatar_png. split; [simpl; auto | discriminate].
Defined.

(** X5: [POST /api/upload] answers with status 201, 400 or 500 and no
    other; a 400 always carries ["File too large"], and then no document was
    created and nothing was logged. *)
Theorem upload_statuses (env : Env) (b : RequestBody) (w : World) :
  (status (post_api_upload env b w).1 = 201
   ∨ status (post_api_upload env b w).1 = 400
   ∨ status (post_api_upload env b w).1 = 500)
  ∧ (status (post_api_upload env b w).1 = 400 →
     (post_api_upload env b w).1 = res 400 (json_error "File too large")
     ∧ images (post_api_upload env b w).2 = images w
     ∧ console (post_api_upload env b w).2 = console w).
Proof.
  unfold post_api_upload, upload_array. destruct b as [parts|].
  - pose proof (upload_parts_world env "images" parts 10 w) as (Hi & Hc & _).
    destruct (upload_parts env "images" 10 parts w) as [[ups|e] w1];
      cbv beta iota; cbn [fst snd] in *.
    + destruct (post_upload_status env (Some ups) w1) as [H|H]; rewrite H;
        (split; [auto | intros; lia]).
    + destruct (error_middleware_status e) as [-> | ->]; cbn [status];
        (split; [auto | intros; (done || lia)]).
  - cbv beta iota.
    destruct (post_upload_status env None w) as [H|H]; rewrite H;
      (split; [auto | intros; lia]).
Qed.

(** X6: after an upload answered 201, the list endpoint reports every
    document of the answer, together with every document that was stored
    before. *)
Theorem upload_then_list (env env' : Env) (parts : list File.t) (w : World) :
  status (post_api_upload env (multipart parts) w).1 = 201 →
  db_rejects env' Find = None →
  ∃ (savedImages found : list Image.t),
    (post_api_upload env (multipart parts) w).1
      = res 201 (json_uploaded "Images uploaded successfully" savedImages)
    ∧ (get_images env' (post_api_upload env (multipart parts) w).2).1
      = res 200 (json_images
                   (List.map (fun image => (image, Image.path (Image.data image))) found))
    ∧ length savedImages = length parts
    ∧ (∀ image, In image savedImages → image ∈ found)
    ∧ (∀ image, images w !! Image._id image = Some (Image.data image) → image ∈ found).
Proof.
  intros H201 Hdb.
  destruct (upload_201_inv env parts w H201)
    as (savedImages & Hres & _ & Hfields & Hstored & _).
  assert (length savedImages = length parts) as Hlen
    by (eapply Forall2_length; exact Hfields).
  exists savedImages,
    (sorted_documents (tie_rank env') (images (post_api_upload env (multipart parts) w).2)).
  split; [done|]. split; [|split; [done|split]].
  - unfold get_images. by rewrite (find_sort_resolves _ _ Hdb).
  - intros image Hin. apply sorted_documents_elem. by apply Hstored.
  - intros image Hin. apply sorted_documents_elem. by apply post_api_upload_keeps.
Qed.

Lemma upload_then_list_witness :
  ∃ (savedImages found : list Image.t),
    (post_api_upload quiet_env (multipart [cat_png]) two_images).1
      = res 201 (json_uploaded "Images uploaded successfully" savedImages)
    ∧ (get_images cloudinary_down
         (post_api_upload quiet_env (multipart [cat_png]) two_images).2).1
      = res 200 (json_images
                   (List.map (fun image => (image, Image.path (Image.data image))) found))
    ∧ length savedImages = length [cat_png]
    ∧ (∀ image, In image savedImages → image ∈ found)
    ∧ (∀ image, images two_images !! Image._id image = Some (Image.data image) →
                image ∈ found).
Proof.
  apply (upload_then_list quiet_env cloudinary_down [cat_png] two_images); reflexivity.
Defined.

(** ** More on deleting *)

Lemma destroy_logged_falsy (env : Env) (publicId : option string) (w : World) :
  Js.truthy publicId = false → destroy_logged env publicId w = w.
Proof.
  intros H. unfold destroy_logged. destruct publicId as [h|]; [|done]. by rewrite H.
Qed.

Lemma destroy_logged_calls (env : Env) (publicId : option string) (w : World) :
  ∃ calls,
    cloudinary (destroy_logged env publicId w) = (cloudinary w ++ calls)%list
    ∧ (calls = [] ∨ ∃ handle, calls = [destroy handle] ∧ handle ≠ "").
Proof.
  destruct publicId as [h|].
  - destruct (String.eqb_spec h "") as [->|Hne].
    + exists []. rewrite app_nil_r. split; [done | by left].
    + exists [destroy h]. split; [by apply destroy_logged_trace | right; eauto].
  - exists []. rewrite app_nil_r. split; [done | by left].
Qed.

(** The delete handler once the document has been found. *)
Lemma delete_image_found (env : Env) (id : string) (d : Image.fields) (w : World) :
  images w !! id = Some d →
  db_rejects env (FindById id) = None →
  delete_image env id w =
    let w1 := destroy_logged env (derive_publicId (Image.doc id d)) w in
    match db_rejects env (FindByIdAndDelete id) with
    | None =>
        (res 200 (json_message "Image deleted successfully"),
         set_images (delete id (images w)) w1)
    | Some error =>
        (res 500 (json_error "Failed to delete image"),
         console_error "Delete error:" error w1)
    end.
Proof.
  intros Hd Hfind. unfold delete_image.
  rewrite (findById_resolves _ _ _ Hfind), Hd. simpl.
  unfold Image.findByIdAndDelete. rewrite destroy_logged_images.
  by destruct (db_rejects env (FindByIdAndDelete id)).
Qed.

(** X7: when the Metadata Store rejects the deletion of a found document,
    the answer is 500 with ["Failed to delete image"] and the document stays
    stored, but the deletion at Cloudinary has already been requested; the
    rejection is the last line of the log. *)
Theorem delete_rejected_by_store_after_destroy
    (env : Env) (id : string) (d : Image.fields) (w : World) (error : Error) :
  images w !! id = Some d →
  db_rejects env (FindById id) = None →
  db_rejects env (FindByIdAndDelete id) = Some error →
  (delete_image env id w).1 = res 500 (json_error "Failed to delete image")
  ∧ images (delete_image env id w).2 = images w
  ∧ (∀ handle, derive_publicId (Image.doc id d) = Some handle → handle ≠ "" →
       cloudinary (delete_image env id w).2 = (cloudinary w ++ [destroy handle])%list)
  ∧ ∃ before, console (delete_image env id w).2
              = (before ++ [("Delete error:", message error)])%list.
Proof.
  intros Hd Hfind Hdel. rewrite (delete_image_found _ _ _ _ Hd Hfind), Hdel. simpl.
  split; [done|]. split; [apply destroy_logged_images|]. split.
  - intros handle -> Hne. by apply destroy_logged_trace.
  - by eexists.
Qed.

Lemma delete_rejected_by_store_after_destroy_witness :
  (delete_image delete_fails "65a000000000000000000001" two_images).1
    = res 500 (json_error "Failed to delete image")
  ∧ images (delete_image delete_fails "65a000000000000000000001" two_images).2
    = images two_images
  ∧ cloudinary (delete_image delete_fails "65a000000000000000000001" two_images).2
    = [destroy "uploads/1690000000000-7"].
Proof.
  destruct (delete_rejected_by_store_after_destroy delete_fails
              "65a000000000000000000001" sunset two_images
              (plain_error "connection lost"))
    as (Hres & Hkept & Hcall & _); [reflexivity | reflexivity | reflexivity |].
  split; [exact Hres|]. split; [exact Hkept|].
  apply (Hcall "uploads/1690000000000-7"); [reflexivity | discriminate].
Defined.

(** X8: a document from which no handle can be derived (its [public_id] is
    missing or empty, and its [path] is missing or empty, or the last
    segment of [path] has nothing before its first dot) is deleted from the
    Metadata Store without any call to Cloudinary and without a log line. *)
Theorem delete_without_handle (env : Env) (id : string) (d : Image.fields) (w : World) :
  images w !! id = Some d →
  db_rejects env (FindById id) = None →
  db_rejects env (FindByIdAndDelete id) = None →
  Js.truthy (Image.public_id d) = false →
  (Js.truthy (Image.path d) = false
   ∨ ∃ p, Image.path d = Some p
          ∧ List.hd "" (Js.split "." (List.last (Js.split "/" p) "")) = "") →
  delete_image env id w =
    (res 200 (json_message "Image deleted successfully"),
     set_images (delete id (images w)) w).
Proof.
  intros Hd Hfind Hdel Hpid Hpath.
  rewrite (delete_image_found _ _ _ _ Hd Hfind), Hdel. simpl.
  rewrite destroy_logged_falsy; [done|].
  unfold derive_publicId. simpl. rewrite Hpid. simpl.
  destruct Hpath as [-> | (p & Hp & Hempty)]; [done|].
  rewrite Hp. destruct (Js.truthy (Some p)); [|done].
  simpl. by rewrite Hempty.
Qed.

Lemma delete_without_handle_witness :
  delete_image quiet_env "65a000000000000000000003" three_images =
    (res 200 (json_message "Image deleted successfully"),
     set_images (delete "65a000000000000000000003" (images three_images)) three_images).
Proof.
  apply (delete_without_handle quiet_env "65a000000000000000000003" bare three_images);
    [reflexivity | reflexivity | reflexivity | reflexivity | left; reflexivity].
Defined.

(** X9: once a document has been deleted, its id is unknown: a download and
    a second delete are both answered 404, and the second delete calls
    Cloudinary no more. *)
Theorem delete_then_unknown
    (env env' : Env) (id : string) (d : Image.fields) (w : World) :
  images w !! id = Some d →
  db_rejects env (FindById id) = None →
  db_rejects env (FindByIdAndDelete id) = None →
  db_rejects env' (FindById id) = None →
  get_download env' id (delete_image env id w).2
    = (res 404 (json_error "Image not found"), (delete_image env id w).2)
  ∧ delete_image env' id (delete_image env id w).2
    = (res 404 (json_error "Image not found"), (delete_image env id w).2).
Proof.
  intros Hd Hfind Hdel Hfind'.
  rewrite (delete_image_found _ _ _ _ Hd Hfind), Hdel. cbv zeta. cbn [snd].
  unfold get_download, delete_image.
  rewrite (findById_resolves _ _ _ Hfind'). cbn [images set_images].
  by rewrite lookup_delete_eq.
Qed.

Lemma delete_then_unknown_witness :
  get_download quiet_env "65a000000000000000000001"
    (delete_image cloudinary_down "65a000000000000000000001" two_images).2
    = (res 404 (json_error "Image not found"),
       (delete_image cloudinary_down "65a000000000000000000001" two_images).2)
  ∧ delete_image quiet_env "65a000000000000000000001"
      (delete_image cloudinary_down "65a000000000000000000001" two_images).2
    = (res 404 (json_error "Image not found"),
       (delete_image cloudinary_down "65a000000000000000000001" two_images).2).
Proof.
  apply (delete_then_unknown cloudinary_down quiet_env "65a000000000000000000001"
           sunset two_images); reflexivity.
Defined.

(** X10: after a document has been deleted, the list endpoint reports
    exactly the documents that were stored before, without the deleted
    one. *)
Theorem delete_then_list
    (env env' : Env) (id : string) (d : Image.fields) (w : World) :
  images w !! id = Some d →
  db_rejects env (FindById id) = None →
  db_rejects env (FindByIdAndDelete id) = None →
  db_rejects env' Find = None →
  ∃ found : list Image.t,
    (get_images env' (delete_image env id w).2).1
      = res 200 (json_images
                   (List.map (fun image => (image, Image.path (Image.data image))) found))
    ∧ ∀ image, image ∈ found ↔
        images w !! Image._id image = Some (Image.data image) ∧ Image._id image ≠ id.
Proof.
  intros Hd Hfind Hdel Hlist.
  rewrite (delete_image_found _ _ _ _ Hd Hfind), Hdel. cbv zeta. cbn [snd].
  exists (sorted_documents (tie_rank env') (delete id (images w))). split.
  - unfold get_images. cbn [images set_images].
    by rewrite (find_sort_resolves _ _ Hlist).
  - intros image. rewrite sorted_documents_elem, lookup_delete_Some.
    split; intros [H1 H2]; split; congruence.
Qed.

Lemma delete_then_list_witness :
  ∃ found : list Image.t,
    (get_images quiet_env
       (delete_image cloudinary_down "65a000000000000000000001" two_images).2).1
      = res 200 (json_images
                   (List.map (fun image => (image, Image.path (Image.data image))) found))
    ∧ ∀ image, image ∈ found ↔
        images two_images !! Image._id image = Some (Image.data image)
        ∧ Image._id image ≠ "65a000000000000000000001".
Proof.
  apply (delete_then_list cloudinary_down quiet_env "65a000000000000000000001"
           sunset two_images); reflexivity.
Defined.

(** X11: whatever the services answer, [DELETE /api/images/:id] leaves every
    document with another id as it was, asks Cloudinary for at most one
    deletion, and never uploads anything. *)
Theorem delete_touches_one_document (env : Env) (id : string) (w : World) :
  (∀ other, other ≠ id →
     images (delete_image env id w).2 !! other = images w !! other)
  ∧ ∃ calls,
      cloudinary (delete_image env id w).2 = (cloudinary w ++ calls)%list
      ∧ (calls = [] ∨ ∃ handle, calls = [destroy handle] ∧ handle ≠ "").
Proof.
  assert (∃ calls, cloudinary w = (cloudinary w ++ calls)%list
                   ∧ (calls = [] ∨ ∃ handle, calls = [destroy handle] ∧ handle ≠ ""))
    as Hnone.
  { exists []. rewrite app_nil_r. split; [done | by left]. }
  unfold delete_image.
  destruct (Image.findById env (images w) id) as [[image|]|e]; [| done | done].
  pose proof (destroy_logged_images env (derive_publicId image) w) as Hi.
  pose proof (destroy_logged_calls env (derive_publicId image) w) as Hcalls.
  unfold Image.findByIdAndDelete.
  destruct (db_rejects env (FindByIdAndDelete id)); cbn [snd images cloudinary
    set_images console_error]; rewrite Hi; (split; [|exact Hcalls]).
  - done.
  - intros other Hne. by apply lookup_delete_ne.
Qed.

(** X12: the three [GET] routes only read: whatever the Metadata Store
    answers, the stored documents and the Cloudinary trace are the same
    after the request as before. *)
Theorem get_routes_only_read (env : Env) (id name : string) (w : World) :
  (images (get_images env w).2 = images w
   ∧ cloudinary (get_images env w).2 = cloudinary w)
  ∧ (images (get_download env id w).2 = images w
     ∧ cloudinary (get_download env id w).2 = cloudinary w)
  ∧ (images (get_download_file env name w).2 = images w
     ∧ cloudinary (get_download_file env name w).2 = cloudinary w).
Proof.
  unfold get_images, get_download, get_download_file.
  destruct (Image.find_sort env (images w)) as [found|e1];
    destruct (Image.findById env (images w) id) as [[image|]|e2];
    destruct (Image.findOne env (images w) name) as [[image'|]|e3];
    done.
Qed.

(** ** Download by file name *)

(** X13: [GET /api/download/file/:filename] redirects to the [path] of a
    stored document that has this [filename] when there is one, and answers
    404 with ["Image not found"] when there is none. *)
Theorem get_download_file_redirects_or_404 (env : Env) (name : string) (w : World) :
  db_rejects env (FindOne name) = None →
  ((∃ id d, images w !! id = Some d ∧ Image.filename d = name) →
   ∃ id d, images w !! id = Some d ∧ Image.filename d = name
           ∧ get_download_file env name w = (res 302 (redirect (Image.path d)), w))
  ∧ ((∀ id d, images w !! id = Some d → Image.filename d ≠ name) →
     get_download_file env name w = (res 404 (json_error "Image not found"), w)).
Proof.
  intros Hdb. unfold get_download_file, Image.findOne. rewrite Hdb.
  destruct (List.find _ _) as [image|] eqn:Hfind.
  - apply find_some in Hfind as [Hin Hname].
    apply list_elem_of_In, list_elem_of_fmap in Hin as ([i d] & -> & Hin).
    apply elem_of_map_to_list in Hin. simpl in Hname.
    apply String.eqb_eq in Hname. split.
    + intros _. exists i, d. done.
    + intros Hnone. by destruct (Hnone i d Hin).
  - split; [|done].
    intros (i & d & Hd & Hname). exfalso.
    pose proof (find_none _ _ Hfind (Image.doc i d)) as Hno.
    simpl in Hno. rewrite Hname, String.eqb_refl in Hno.
    assert (In (Image.doc i d) (Image.of_entry <$> map_to_list (images w))) as Hin.
    { apply list_elem_of_In, list_elem_of_fmap. exists (i, d). split; [done|].
      by apply elem_of_map_to_list. }
    by specialize (Hno Hin).
Qed.

Lemma get_download_file_redirects_or_404_witness :
  (∃ id d, images two_images !! id = Some d
           ∧ Image.filename d = "uploads/1690000000000-7"
           ∧ get_download_file quiet_env "uploads/1690000000000-7" two_images
             = (res 302 (redirect (Image.path d)), two_images))
  ∧ get_download_file quiet_env "missing.png" two_images
    = (res 404 (json_error "Image not found"), two_images).
Proof.
  split.
  - apply (get_download_file_redirects_or_404 quiet_env "uploads/1690000000000-7"
             two_images); [reflexivity|].
    exists "65a000000000000000000001", sunset. split; reflexivity.
  - apply (get_download_file_redirects_or_404 quiet_env "missing.png" two_images);
      [reflexivity|].
    intros id d Hd.
    destruct (decide (id = "65a000000000000000000001")) as [->|Hne1].
    + vm_compute in Hd. injection Hd as <-. discriminate.
    + destruct (decide (id = "65a000000000000000000002")) as [->|Hne2].
      * vm_compute in Hd. injection Hd as <-. discriminate.
      * unfold two_images in Hd. simpl in Hd.
        rewrite lookup_insert_ne, lookup_insert_ne, lookup_empty in Hd by done.
        discriminate.
Defined.

(** ** The handle cut out of the path *)

Lemma includes_char_cons (c a : ascii) (s : string) :
  Js.includes (String c "") (String a s)
  = Ascii.eqb c a || Js.includes (String c "") s.
Proof.
  cbn [Js.includes Js.startsWith]. rewrite andb_true_r.
  destruct s; reflexivity.
Qed.

Lemma hd_split_no_sep (sep : ascii) (s : string) :
  Js.includes (String sep "") (List.hd "" (Js.split sep s)) = false.
Proof.
  induction s as [|a s IH]; [reflexivity|].
  cbn [Js.split]. destruct (Ascii.eqb_spec a sep) as [->|Hne]; [reflexivity|].
  pose proof (split_not_nil sep s) as Hnil.
  destruct (Js.split sep s) as [|x xs]; [done|]. cbn [List.hd] in *.
  rewrite includes_char_cons, IH, orb_false_r.
  apply Ascii.eqb_neq. congruence.
Qed.

Lemma hd_split_keeps_absent (c sep : ascii) (s : string) :
  Js.includes (String c "") s = false →
  Js.includes (String c "") (List.hd "" (Js.split sep s)) = false.
Proof.
  induction s as [|a s IH]; [done|].
  rewrite includes_char_cons. intros H. apply orb_false_iff in H as [Ha Hs].
  cbn [Js.split]. destruct (Ascii.eqb a sep); [reflexivity|].
  pose proof (split_not_nil sep s) as Hnil.
  destruct (Js.split sep s) as [|x xs]; [done|]. cbn [List.hd] in *.
  by rewrite includes_char_cons, Ha, (IH Hs).
Qed.

Lemma hd_split_prefix (sep : ascii) (s : string) :
  Js.startsWith (List.hd "" (Js.split sep s)) s = true.
Proof.
  induction s as [|a s IH]; [reflexivity|].
  cbn [Js.split]. destruct (Ascii.eqb a sep); [reflexivity|].
  pose proof (split_not_nil sep s) as Hnil.
  destruct (Js.split sep s) as [|x xs]; [done|]. cbn [List.hd] in *.
  cbn [Js.startsWith]. by rewrite Ascii.eqb_refl, IH.
Qed.

Lemma last_split_no_sep (sep : ascii) (s : string) :
  Js.includes (String sep "") (List.last (Js.split sep s) "") = false.
Proof.
  induction s as [|a s IH]; [reflexivity|].
  cbn [Js.split]. pose proof (split_not_nil sep s) as Hnil.
  destruct (Ascii.eqb_spec a sep) as [->|Hne].
  - destruct (Js.split sep s) as [|x xs]; [done|]. exact IH.
  - destruct (Js.split sep s) as [|x xs]; [done|].
    destruct xs as [|y ys]; [|exact IH].
    cbn [List.last] in *. rewrite includes_char_cons, IH, orb_false_r.
    apply Ascii.eqb_neq. congruence.
Qed.

(** X14: for a document without a usable [public_id] but with a [path], the
    handle is the beginning of the last ['/']-separated segment of the path,
    and it contains neither a ['/'] nor a ['.']: a folder in front of the
    name is never part of it. *)
Theorem derive_publicId_from_path_is_a_bare_name (image : Image.t) (p : string) :
  Js.truthy (Image.public_id (Image.data image)) = false →
  Image.path (Image.data image) = Some p →
  p ≠ "" →
  ∃ handle,
    derive_publicId image = Some handle
    ∧ Js.startsWith handle (List.last (Js.split "/" p) "") = true
    ∧ Js.includes "/" handle = false
    ∧ Js.includes "." handle = false.
Proof.
  intros Hpid Hp Hne. unfold derive_publicId. rewrite Hpid, Hp. simpl.
  destruct (String.eqb_spec p ""); [done|]. simpl.
  eexists. split; [reflexivity|]. split; [apply hd_split_prefix|]. split.
  - apply hd_split_keeps_absent. apply last_split_no_sep.
  - apply hd_split_no_sep.
Qed.

Lemma derive_publicId_from_path_is_a_bare_name_witness :
  ∃ handle,
    derive_publicId (Image.doc "65a000000000000000000002" holiday) = Some handle
    ∧ Js.startsWith handle
        (List.last
           (Js.split "/" "https://res.cloudinary.com/demo/image/upload/v1/holiday.2023.jpg")
           "") = true
    ∧ Js.includes "/" handle = false
    ∧ Js.includes "." handle = false.
Proof.
  apply (derive_publicId_from_path_is_a_bare_name
           (Image.doc "65a000000000000000000002" holiday)
           "https://res.cloudinary.com/demo/image/upload/v1/holiday.2023.jpg");
    [reflexivity | reflexivity | discriminate].
Defined.

(** ** File names without an extension *)

Lemma dots_split (sep : ascii) (s : string) :
  dots s = 0%nat → Forall (λ part, dots part = 0%nat) (Js.split sep s).
Proof.
  induction s as [|a s IH]; cbn [dots Js.split]; intros H.
  - by constructor.
  - assert (dots s = 0%nat) as Hs by lia.
    assert (Ascii.eqb a "." = false) as Ha by (destruct (Ascii.eqb a "."); [lia | done]).
    specialize (IH Hs). destruct (Ascii.eqb a sep).
    + by constructor.
    + destruct IH as [|x xs Hx Hxs]; constructor; try done;
        cbn [dots]; rewrite Ha; lia.
Qed.

Lemma last_dot_suffix_none (s : string) :
  dots s = 0%nat → Js.last_dot_suffix s = None.
Proof.
  induction s as [|a s IH]; cbn [dots Js.last_dot_suffix]; [done|].
  intros H. rewrite IH by lia. destruct (Ascii.eqb a "."); [lia | done].
Qed.

Lemma extname_without_dot (p : string) : dots p = 0%nat → Js.extname p = "".
Proof.
  intros H. unfold Js.extname, Js.basename.
  pose proof (dots_split "/" p H) as Hall.
  assert (dots (List.last (List.filter (λ x, negb (String.eqb x ""))
                            (Js.split "/" p)) "") = 0%nat) as Hbase.
  { induction Hall as [|x xs Hx Hxs IH]; [reflexivity|].
    simpl. destruct (negb (String.eqb x "")); [|exact IH].
    destruct (List.filter _ xs) as [|y ys] eqn:E; [exact Hx | exact IH]. }
  destruct (List.last _ _) as [|c rest]; [reflexivity|].
  cbn [dots] in Hbase.
  assert (Ascii.eqb c "." = false) as Hc by (destruct (Ascii.eqb c "."); [lia | done]).
  assert (String.eqb (String c rest) ".." = false) as Hnot.
  { cbn [String.eqb]. by rewrite Hc. }
  rewrite Hnot, last_dot_suffix_none; [done|].
  rewrite Hc in Hbase. lia.
Qed.

(** X15: a file whose name has no dot at all is refused by the type check
    with ["Only image files are allowed!"], whatever MIME type is declared
    for it. *)
Theorem fileFilter_needs_an_extension (file : File.t) :
  dots (File.originalname file) = 0%nat →
  fileFilter file = Throw only_images.
Proof.
  intros H. unfold fileFilter. rewrite (extname_without_dot _ H).
  by rewrite andb_false_r.
Qed.

Lemma fileFilter_needs_an_extension_witness :
  fileFilter {| File.fieldname := "images"; File.originalname := "blob";
                File.mimetype := "image/png"; File.size := 4096 |}
    = Throw only_images.
Proof.
  apply (fileFilter_needs_an_extension
           {| File.fieldname := "images"; File.originalname := "blob";
              File.mimetype := "image/png"; File.size := 4096 |}).
  reflexivity.
Defined.

(** * Further properties of the client *)

(** X16: when the delete request fails (the fetch throws, or the response
    is not ok), [deleteImage] removes nothing from the gallery and leaves the
    detail view alone; it only shows its error message. *)
Theorem deleteImage_failure_keeps_gallery
    (outcome : Client.Fetch) (id : string) (st : Client.State) :
  outcome ≠ Client.response true →
  Client.images (Client.deleteImage outcome id st) = Client.images st
  ∧ Client.selectedImage (Client.deleteImage outcome id st) = Client.selectedImage st
  ∧ Client.error (Client.deleteImage outcome id st)
    = Some "Failed to delete image. Please try again.".
Proof.
  intros Hfail. unfold Client.deleteImage, Client.deleteImage_settle.
  destruct outcome as [|[|]]; done.
Qed.

Lemma deleteImage_failure_keeps_gallery_witness :
  Client.images (Client.deleteImage (Client.response false)
                   "65a000000000000000000001" gallery) = Client.images gallery
  ∧ Client.selectedImage (Client.deleteImage (Client.response false)
                            "65a000000000000000000001" gallery)
    = Client.selectedImage gallery
  ∧ Client.error (Client.deleteImage (Client.response false)
                    "65a000000000000000000001" gallery)
    = Some "Failed to delete image. Please try again.".
Proof.
  apply (deleteImage_failure_keeps_gallery (Client.response false)
           "65a000000000000000000001" gallery).
  discriminate.
Defined.

(** X17: [fetchImages] always ends with the loading flag cleared and never
    touches the detail view or the upload flag.  An ok response whose body
    is a list replaces the images by that list and clears the error; when
    the fetch throws or the response is not ok, the images stay as they were
    and the load error is shown. *)
Theorem fetchImages_outcomes (outcome : Client.ListFetch) (st : Client.State) :
  Client.isLoading (Client.fetchImages outcome st) = false
  ∧ Client.selectedImage (Client.fetchImages outcome st) = Client.selectedImage st
  ∧ Client.isUploading (Client.fetchImages outcome st) = Client.isUploading st
  ∧ (∀ data, outcome = Client.list_response true (Some data) →
       Client.images (Client.fetchImages outcome st) = data
       ∧ Client.error (Client.fetchImages outcome st) = None)
  ∧ (outcome = Client.list_network_error
     ∨ (∃ json, outcome = Client.list_response false json) →
       Client.images (Client.fetchImages outcome st) = Client.images st
       ∧ Client.error (Client.fetchImages outcome st) = Some Client.load_failed).
Proof.
  unfold Client.fetchImages.
  destruct outcome as [|[|] [data|]]; simpl;
    (split; [done|]); (split; [done|]); (split; [done|]); split;
    try (intros data' Heq; first [discriminate Heq | by injection Heq as <-]);
    try (intros [Heq | [json Heq]]; first [discriminate Heq | done]).
Qed.

(** X18: [handleFileUpload] sends nothing and changes nothing for an empty
    selection.  Otherwise it sends exactly the selected files whose type
    starts with ["image/"], in their order, and always ends with the upload
    flag cleared; unless the upload was answered ok with a readable body,
    the images stay as they were and the upload error is shown. *)
Theorem handleFileUpload_outcomes
    (files : list Client.BrowserFile) (upload : Client.UploadFetch)
    (refresh : Client.ListFetch) (st : Client.State) :
  (files = [] → Client.handleFileUpload files upload refresh st = (st, None))
  ∧ (files ≠ [] →
     (Client.handleFileUpload files upload refresh st).2 = Some (Client.formData files)
     ∧ (∀ file, In file (Client.formData files) ↔
                In file files ∧ Js.startsWith "image/" (Client.type file) = true)
     ∧ Client.isUploading (Client.handleFileUpload files upload refresh st).1 = false
     ∧ (upload ≠ Client.upload_response true true →
        Client.images (Client.handleFileUpload files upload refresh st).1
          = Client.images st
        ∧ Client.error (Client.handleFileUpload files upload refresh st).1
          = Some Client.upload_failed)).
Proof.
  split; [by intros -> |].
  intros Hne. destruct files as [|file files]; [done|].
  cbn [Client.handleFileUpload snd fst]. split; [done|]. split; [|split; [done|]].
  - intros f. unfold Client.formData. apply filter_In.
  - intros Hfail. destruct upload as [|[|] [|]]; done.
Qed.

Lemma handleFileUpload_outcomes_witness :
  Client.handleFileUpload [] Client.upload_network_error Client.list_network_error gallery
    = (gallery, None)
  ∧ (Client.handleFileUpload [readme_md] Client.upload_network_error
       Client.list_network_error gallery).2 = Some []
  ∧ Client.error (Client.handleFileUpload [readme_md] Client.upload_network_error
                    Client.list_network_error gallery).1
    = Some Client.upload_failed.
Proof.
  split.
  - apply (handleFileUpload_outcomes [] Client.upload_network_error
             Client.list_network_error gallery). reflexivity.
  - destruct (handleFileUpload_outcomes [readme_md] Client.upload_network_error
                Client.list_network_error gallery) as [_ H].
    destruct H as (Hsent & _ & _ & Hfail); [discriminate|].
    split; [exact Hsent|]. apply Hfail. discriminate.
Defined.

(** * The client in front of the server *)

Lemma StronglySorted_map {A B} (R : B → B → Prop) (f : A → B) (l : list A) :
  StronglySorted (λ a b, R (f a) (f b)) l → StronglySorted R (List.map f l).
Proof.
  induction 1 as [|a l Hl IH Hall]; simpl; constructor; [done|].
  rewrite Forall_forall in Hall. apply Forall_forall.
  intros b Hb. apply list_elem_of_In, in_map_iff in Hb as (x & <- & Hx).
  apply Hall. by apply list_elem_of_In.
Qed.

(** An answer of the list route with an ok status carries a list. *)
Lemma get_images_ok_carries_list (env : Env) (w : World) :
  response_ok (get_images env w).1 = true →
  ∃ l, body (get_images env w).1 = json_images l.
Proof.
  unfold get_images. destruct (Image.find_sort env (images w)) as [found|e]; simpl.
  - intros _. by eexists.
  - discriminate.
Qed.

Lemma ids_of_listing (rank : string → Z) (coll : gmap string Image.fields) (i : string) :
  In i (List.map Client._id
          (List.map of_json
             (List.map (fun image => (image, Image.path (Image.data image)))
                (sorted_documents rank coll))))
  ↔ is_Some (coll !! i).
Proof.
  rewrite !List.map_map. simpl. rewrite in_map_iff. split.
  - intros (image & <- & Hin). apply list_elem_of_In, sorted_documents_elem in Hin.
    by eexists.
  - intros [d Hd]. exists (Image.doc i d). split; [done|].
    apply list_elem_of_In, sorted_documents_elem. done.
Qed.

Lemma ids_of_listing_NoDup (rank : string → Z) (coll : gmap string Image.fields) :
  NoDup (List.map Client._id
           (List.map of_json
              (List.map (fun image => (image, Image.path (Image.data image)))
                 (sorted_documents rank coll))))
  ∧ length (List.map of_json
              (List.map (fun image => (image, Image.path (Image.data image)))
                 (sorted_documents rank coll))) = size coll.
Proof.
  rewrite !List.map_map, !length_map. simpl.
  pose proof (sorted_documents_Permutation rank coll) as Hperm. split.
  - assert (List.map (λ x, Image._id x) (sorted_documents rank coll)
            ≡ₚ List.map (λ x, Image._id x) (Image.of_entry <$> map_to_list coll))
      as -> by (by apply Permutation_map).
    change (List.map (λ x, Image._id x) (Image.of_entry <$> map_to_list coll))
      with (Image._id <$> (Image.of_entry <$> map_to_list coll)).
    rewrite <- list_fmap_compose. apply NoDup_fst_map_to_list.
  - rewrite (Permutation_length Hperm), length_fmap. apply length_map_to_list.
Qed.

(** X19: a refresh against a server whose list query resolves shows exactly
    the stored documents: one image per stored id and no id twice (as many
    images as there are stored documents), newest first, each with [url]
    equal to its [path], and no error.  When the query rejects, the server
    answers 500 and the client keeps its images and shows the load error. *)
Theorem refresh_shows_the_store (env : Env) (w : World) (st : Client.State) :
  (db_rejects env Find = None →
   Client.error (Client.fetchImages (list_fetch (get_images env w).1) st) = None
   ∧ (∀ i, In i (List.map Client._id
                   (Client.images
                      (Client.fetchImages (list_fetch (get_images env w).1) st)))
           ↔ is_Some (images w !! i))
   ∧ NoDup (List.map Client._id
              (Client.images (Client.fetchImages (list_fetch (get_images env w).1) st)))
   ∧ length (Client.images (Client.fetchImages (list_fetch (get_images env w).1) st))
     = size (images w)
   ∧ StronglySorted
       (λ a b, Image.uploadDate (Client.data b) ≤ Image.uploadDate (Client.data a))
       (Client.images (Client.fetchImages (list_fetch (get_images env w).1) st))
   ∧ Forall (λ img, Client.url img = Image.path (Client.data img)
                    ∧ images w !! Client._id img = Some (Client.data img))
       (Client.images (Client.fetchImages (list_fetch (get_images env w).1) st)))
  ∧ (∀ e, db_rejects env Find = Some e →
       Client.images (Client.fetchImages (list_fetch (get_images env w).1) st)
         = Client.images st
       ∧ Client.error (Client.fetchImages (list_fetch (get_images env w).1) st)
         = Some Client.load_failed).
Proof.
  split.
  - intros Hdb. unfold get_images. rewrite (find_sort_resolves _ _ Hdb).
    cbn. split; [done|]. split; [apply ids_of_listing|].
    split; [apply ids_of_listing_NoDup|]. split; [apply ids_of_listing_NoDup|]. split.
    + rewrite List.map_map. apply StronglySorted_map. simpl.
      apply (sorted_documents_sorted (tie_rank env)).
    + rewrite List.map_map. apply Forall_forall. intros img Himg.
      apply list_elem_of_In, in_map_iff in Himg as (image & <- & Hin).
      simpl. split; [done|].
      apply (sorted_documents_elem (tie_rank env)). by apply list_elem_of_In.
  - intros e Hdb. unfold get_images, Image.find_sort. rewrite Hdb. done.
Qed.

Lemma refresh_shows_the_store_witness :
  Client.error (Client.fetchImages (list_fetch (get_images quiet_env two_images).1)
                  gallery) = None
  ∧ Client.images (Client.fetchImages
                     (list_fetch (get_images second_save_fails two_images).1) gallery)
    = Client.images (Client.fetchImages
                       (list_fetch (get_images quiet_env two_images).1) gallery).
Proof.
  destruct (refresh_shows_the_store quiet_env two_images gallery) as [Hok _].
  destruct Hok as (Herr & _); [reflexivity|].
  split; [exact Herr | reflexivity].
Defined.

Lemma fetchImages_outcomes_witness :
  Client.images (Client.fetchImages (Client.list_response true (Some [])) gallery) = []
  ∧ Client.error (Client.fetchImages (Client.list_response true (Some [])) gallery) = None
  ∧ Client.images (Client.fetchImages (Client.list_response false None) gallery)
    = Client.images gallery
  ∧ Client.error (Client.fetchImages (Client.list_response false None) gallery)
    = Some Client.load_failed.
Proof.
  destruct (fetchImages_outcomes (Client.list_response true (Some [])) gallery)
    as (_ & _ & _ & Hok & _).
  destruct (fetchImages_outcomes (Client.list_response false None) gallery)
    as (_ & _ & _ & _ & Hfail).
  destruct (Hok [] eq_refl) as [H1 H2].
  destruct Hfail as [H3 H4]; [right; by exists None|].
  exact (conj H1 (conj H2 (conj H3 H4))).
Defined.

Lemma formData_without_images (files : list Client.BrowserFile) :
  Forall (λ file, Js.startsWith "image/" (Client.type file) = false) files →
  Client.formData files = [].
Proof.
  unfold Client.formData.
  induction 1 as [|file files Hfile _ IH]; cbn [List.filter]; [done|].
  by rewrite Hfile.
Qed.

(** X20: when none of the selected files has a type starting with
    ["image/"], the client still posts a form, with no file in it; the
    server answers 201 without creating anything, and, the refresh
    succeeding, the client shows no error. *)
Theorem selection_without_images
    (env : Env) (files : list Client.BrowserFile) (st : Client.State) (w : World) :
  files ≠ [] →
  Forall (λ file, Js.startsWith "image/" (Client.type file) = false) files →
  db_rejects env Find = None →
  post_api_upload env (multipart (List.map to_part (Client.formData files))) w
    = (res 201 (json_uploaded "Images uploaded successfully" []), w)
  ∧ (Client.handleFileUpload files
       (upload_fetch
          (post_api_upload env (multipart (List.map to_part (Client.formData files))) w).1)
       (list_fetch (get_images env w).1) st).2 = Some []
  ∧ Client.error
      (Client.handleFileUpload files
         (upload_fetch
            (post_api_upload env (multipart (List.map to_part (Client.formData files))) w).1)
         (list_fetch (get_images env w).1) st).1 = None
  ∧ Client.isUploading
      (Client.handleFileUpload files
         (upload_fetch
            (post_api_upload env (multipart (List.map to_part (Client.formData files))) w).1)
         (list_fetch (get_images env w).1) st).1 = false.
Proof.
  intros Hne Hnone Hdb. rewrite (formData_without_images _ Hnone).
  split; [reflexivity|].
  destruct files as [|file files]; [done|].
  cbn [Client.handleFileUpload fst snd].
  rewrite (formData_without_images _ Hnone).
  split; [done|]. split; [|done].
  unfold get_images. rewrite (find_sort_resolves _ _ Hdb). reflexivity.
Qed.

Lemma selection_without_images_witness :
  post_api_upload quiet_env (multipart (List.map to_part (Client.formData [readme_md])))
    two_images
    = (res 201 (json_uploaded "Images uploaded successfully" []), two_images)
  ∧ Client.error
      (Client.handleFileUpload [readme_md]
         (upload_fetch
            (post_api_upload quiet_env
               (multipart (List.map to_part (Client.formData [readme_md]))) two_images).1)
         (list_fetch (get_images quiet_env two_images).1) gallery).1 = None.
Proof.
  destruct (selection_without_images quiet_env [readme_md] gallery two_images)
    as (Hserver & _ & Herr & _);
    [discriminate | repeat constructor | reflexivity |].
  exact (conj Hserver Herr).
Defined.

(** X21: a gallery that shows exactly the stored ids still does so after a
    delete that the server carried out: the local removal by [_id] yields
    the ids the server is left with, and no error is shown. *)
Theorem local_removal_matches_server
    (env : Env) (id : string) (d : Image.fields) (w : World) (st : Client.State) :
  images w !! id = Some d →
  db_rejects env (FindById id) = None →
  db_rejects env (FindByIdAndDelete id) = None →
  (∀ i, In i (List.map Client._id (Client.images st)) ↔ is_Some (images w !! i)) →
  Client.error (Client.deleteImage (delete_fetch (delete_image env id w).1) id st) = None
  ∧ ∀ i, In i (List.map Client._id
                 (Client.images
                    (Client.deleteImage (delete_fetch (delete_image env id w).1) id st)))
         ↔ is_Some (images (delete_image env id w).2 !! i).
Proof.
  intros Hd Hfind Hdel Hsync.
  rewrite (delete_image_found _ _ _ _ Hd Hfind), Hdel. cbv zeta. cbn [fst snd].
  unfold delete_fetch, response_ok. cbn [status Z.leb Z.compare Pos.compare
    Pos.compare_cont andb set_images images].
  assert (Client.images (Client.deleteImage (Client.response true) id st)
          = List.filter (fun img => negb (String.eqb (Client._id img) id))
              (Client.images st)) as Himgs.
  { unfold Client.deleteImage, Client.deleteImage_settle, Client.deleteImage_click.
    simpl. destruct (Client.selectedImage st) as [sel|]; [|done].
    by destruct (String.eqb (Client._id sel) id). }
  split.
  - unfold Client.deleteImage, Client.deleteImage_settle, Client.deleteImage_click.
    simpl. destruct (Client.selectedImage st) as [sel|]; [|done].
    by destruct (String.eqb (Client._id sel) id).
  - intros i. rewrite Himgs, lookup_delete_is_Some, <- Hsync, !in_map_iff.
    split.
    + intros (img & <- & Hin). apply filter_In in Hin as [Hin Hneq].
      apply negb_true_iff, String.eqb_neq in Hneq. split; [done | by exists img].
    + intros (Hneq & img & <- & Hin). exists img. split; [done|].
      apply filter_In. split; [done|]. by apply negb_true_iff, String.eqb_neq.
Qed.

Lemma gallery_of_two_in_sync (i : string) :
  In i (List.map Client._id (Client.images gallery_of_two))
  ↔ is_Some (images two_images !! i).
Proof.
  split.
  - simpl. intros [<-|[<-|[]]]; eexists; reflexivity.
  - intros [d Hd]. simpl.
    destruct (decide (i = "65a000000000000000000001")) as [->|Hne1]; [auto|].
    destruct (decide (i = "65a000000000000000000002")) as [->|Hne2]; [auto|].
    unfold two_images in Hd. simpl in Hd.
    rewrite lookup_insert_ne, lookup_insert_ne, lookup_empty in Hd by done.
    discriminate.
Qed.

Lemma local_removal_matches_server_witness :
  Client.error
    (Client.deleteImage
       (delete_fetch (delete_image cloudinary_down "65a000000000000000000001"
                        two_images).1)
       "65a000000000000000000001" gallery_of_two) = None
  ∧ ∀ i, In i (List.map Client._id
                 (Client.images
                    (Client.deleteImage
                       (delete_fetch (delete_image cloudinary_down
                                        "65a000000000000000000001" two_images).1)
                       "65a000000000000000000001" gallery_of_two)))
         ↔ is_Some (images (delete_image cloudinary_down "65a000000000000000000001"
                              two_images).2 !! i).
Proof.
  apply (local_removal_matches_server cloudinary_down "65a000000000000000000001"
           sunset two_images gallery_of_two);
    [reflexivity | reflexivity | reflexivity | apply gallery_of_two_in_sync].
Defined.

Lemma upload_keeps_stored_documents_witness :
  images (post_api_upload second_save_fails (multipart [cat_png; dog_jpg]) two_images).2
    !! "65a000000000000000000001" = Some sunset.
Proof.
  apply (upload_keeps_stored_documents second_save_fails
           (multipart [cat_png; dog_jpg]) two_images "65a000000000000000000001" sunset).
  reflexivity.
Defined.

Lemma upload_statuses_witness :
  (post_api_upload quiet_env (multipart [big_png]) two_images).1
    = res 400 (json_error "File too large")
  ∧ images (post_api_upload quiet_env (multipart [big_png]) two_images).2
    = images two_images
  ∧ console (post_api_upload quiet_env (multipart [big_png]) two_images).2
    = console two_images.
Proof.
  destruct (upload_statuses quiet_env (multipart [big_png]) two_images) as [_ H400].
  apply H400. reflexivity.
Defined.

Lemma delete_touches_one_document_witness :
  images (delete_image delete_fails "65a000000000000000000001" two_images).2
    !! "65a000000000000000000002" = images two_images !! "65a000000000000000000002".
Proof.
  destruct (delete_touches_one_document delete_fails "65a000000000000000000001"
              two_images) as [Hother _].
  apply (Hother "65a000000000000000000002"). discriminate.
Defined.
